(** * Decoding with ANOVA + SVM on the Haxby dataset

    A shallow embedding of [examples/02_decoding/plot_haxby_anova_svm.py]
    and of the array, estimator and image operations the script calls,
    followed by the properties of the decoding pipeline.

    Conventions.
    - Numbers are exact rationals ([Qc]); rounding of machine floats is
      not modelled.
    - A one-dimensional array is a list; a two-dimensional array is a
      list of rows.
    - An operation that raises in Python returns [None]; every error of
      the script is fatal, so one error value is enough.
    - Estimators are mutable objects: they live in a heap and are named
      by their address, so that a pipeline and the variables [svc] and
      [feature_selection] share the same objects. *)

From Stdlib Require Import QArith Qcanon Sorted.
From stdpp Require Import base option list strings numbers gmap.

#[local] Set Warnings "-clear-no-such-hyp".

Open Scope Qc_scope.
Open Scope Z_scope.
Open Scope nat_scope.

(** ** Arrays (numpy) *)

Module np.

(** [a[mask]] for a boolean [mask]: the entries of [a] at the true
  positions, in order. *)
Fixpoint compress {A} (mask : list bool) (a : list A) : list A :=
match mask, a with
| b :: mask', x :: a' =>
    if b then x :: compress mask' a' else compress mask' a'
| _, _ => []
end.

(** Boolean indexing along the first axis. A boolean index whose length
  is not that of the indexed axis is an [IndexError]. *)
Definition getitem {A} (a : list A) (mask : list bool) : option (list A) :=
if decide (length mask = length a) then Some (compress mask a) else None.

(** [a == c], element by element. *)
Definition equal `{EqDecision A} (a : list A) (c : A) : list bool :=
map (λ x, bool_decide (x = c)) a.

(** [np.logical_or(a, b)] on two arrays of one shape; shapes that
  cannot be broadcast together raise. *)
Definition logical_or (a b : list bool) : option (list bool) :=
if decide (length a = length b) then Some (zip_with orb a b) else None.

(** [np.count_nonzero] of a boolean array. *)
Fixpoint count_nonzero (mask : list bool) : nat :=
match mask with
| [] => 0
| b :: mask' => (if b then 1 else 0) + count_nonzero mask'
end.

(** [np.logical_not] *)
Definition logical_not (a : list bool) : list bool := map negb a.

(** Insertion of a value in a sorted list. *)
Fixpoint insert_sorted {A} (leb : A → A → bool) (x : A) (l : list A) : list A :=
match l with
| [] => [x]
| y :: l' => if leb x y then x :: l else y :: insert_sorted leb x l'
end.

(** [np.unique]: the distinct values, sorted. *)
Definition unique {A} (leb : A → A → bool) `{EqDecision A}
  (a : list A) : list A :=
foldr (insert_sorted leb) [] (remove_dups a).

Definition size {A} (a : list A) : nat := length a.

Definition sum (a : list Qc) : Qc := foldr Qcplus 0%Qc a.

(** [np.mean]: the sum divided by the count; the mean of an empty array
  is not a number. *)
Definition mean (a : list Qc) : option Qc :=
match a with
| [] => None
| _ => Some (sum a / Q2Qc (inject_Z (Z.of_nat (length a))))%Qc
end.

(** [a // d] on an integer array: floor division. *)
Definition floor_divide (a : list Z) (d : Z) : list Z :=
map (λ x, (x `div` d)%Z) a.

End np.

(** Order on byte strings and integers used by [np.unique]. *)
Definition bytes_leb : string → string → bool := String.leb.
Definition int_leb : Z → Z → bool := Z.leb.

(** ** The behavioural table *)

(** [np.recfromcsv] yields one record per line of the table, with the
    named fields [labels] and [chunks]. *)
Record row := { labels : string; chunks : Z }.

Definition field_labels (t : list row) : list string := map labels t.
Definition field_chunks (t : list row) : list Z := map chunks t.

(** ** Images and files *)

(** A Nifti image: a spatial shape and one flattened volume per time
    point (a 3D image has one volume). *)
Record nifti := Nifti {
  shape : nat * nat * nat;
  vols : list (list Qc)
}.

Definition n_voxels (s : nat * nat * nat) : nat :=
  match s with (nx, ny, nz) => nx * ny * nz end.

Inductive file :=
| TableFile (t : list row)
| NiftiFile (img : nifti).

(** What the script prints and shows. *)
Inductive arg := AStr (s : string) | ANum (q : Qc).

Inductive event :=
| Printed (fmt : string) (args : list arg)
| PlotStatMap (stat_map bg : nifti) (title : string)
| Show.

(** The dataset bundle returned by [datasets.fetch_haxby()]: paths in
    the local cache. *)
Record Bunch := {
  mask : string;
  func : list string;
  session_target : list string
}.

(** [a.T] of a matrix with [n] columns. *)
Definition column (X : list (list Qc)) (j : nat) : list Qc :=
  map (λ r, default 0%Qc (r !! j)) X.

(** [out[mask] = v; out[~mask] = 0]: the values [v] laid out at the true
    positions of [mask], zero elsewhere. *)
Fixpoint scatter (mask : list bool) (v : list Qc) : list Qc :=
  match mask with
  | [] => []
  | true :: mask' =>
      match v with
      | x :: v' => x :: scatter mask' v'
      | [] => 0%Qc :: scatter mask' []
      end
  | false :: mask' => 0%Qc :: scatter mask' v
  end.

(** The position of voxel [i] among the selected entries of [mask]. *)
Definition rank (mask : list bool) (i : nat) : nat :=
  np.count_nonzero (take i mask).

(** Merge of two sorted runs; on a tie the entry of the first run, the
    earlier one, comes first. *)
Fixpoint merge {A} (le : A → A → bool) (l1 : list A) : list A → list A :=
  fix merge_l1 (l2 : list A) : list A :=
    match l1, l2 with
    | [], _ => l2
    | _, [] => l1
    | a :: l1', b :: l2' =>
        if le a b then a :: merge le l1' l2 else b :: merge_l1 l2'
    end.

(** One pass of a bottom-up merge sort: neighbouring runs are merged. *)
Fixpoint merge_pairs {A} (le : A → A → bool) (runs : list (list A))
    : list (list A) :=
  match runs with
  | a :: b :: rest => merge le a b :: merge_pairs le rest
  | _ => runs
  end.

(** Passes are repeated until one run is left; [n] passes are more than
    enough for [n] runs. *)
Fixpoint merge_passes {A} (le : A → A → bool) (n : nat)
    (runs : list (list A)) : list A :=
  match runs, n with
  | [], _ => []
  | [r], _ => r
  | _, S n' => merge_passes le n' (merge_pairs le runs)
  | _, 0 => foldr (merge le) [] runs
  end.

Definition merge_sort {A} (le : A → A → bool) (l : list A) : list A :=
  merge_passes le (length l) (map (λ x, [x]) l).

(** Stable ascending [np.argsort(scores, kind="mergesort")]. *)
Definition score_le (p q : Qc * nat) : bool :=
  Qle_bool (this (fst p)) (this (fst q)).

Definition argsort (scores : list Qc) : list nat :=
  map snd (merge_sort score_le (zip scores (seq 0 (length scores)))).

(** [mask = zeros(n); mask[idx] = 1] *)
Definition mask_of_indices (n : nat) (idx : list nat) : list bool :=
  foldr (λ i m, <[i := true]> m) (replicate n false) idx.

(** [sklearn.metrics.accuracy_score]: the fraction of equal entries. *)
Definition accuracy_score (y_true y_pred : list string) : option Qc :=
  if decide (length y_true = length y_pred) then
    np.mean (zip_with (λ a b, if decide (a = b) then 1%Qc else 0%Qc)
                      y_true y_pred)
  else None.

(** [LeaveOneLabelOut(labels)]: the constructor keeps the labels and
    their distinct values. *)
Record LeaveOneLabelOut_t := {
  lolo_labels : list Z;
  unique_labels : list Z
}.

Definition LeaveOneLabelOut (labels : list Z) : LeaveOneLabelOut_t :=
  {| lolo_labels := labels; unique_labels := np.unique int_leb labels |}.

(** Iterating a [LeaveOneLabelOut]: one test mask per distinct label. *)
Definition lolo_test_masks (cv : LeaveOneLabelOut_t) : list (list bool) :=
  map (λ u, np.equal (lolo_labels cv) u) (unique_labels cv).

(** Python's [1. / n]. *)
Definition true_divide (a : Qc) (n : nat) : option Qc :=
  if decide (n = 0) then None
  else Some (a / Q2Qc (inject_Z (Z.of_nat n)))%Qc.

(** nibabel chooses the file format from the extension. *)
Definition endswith (s suffix : string) : bool :=
  let n := String.length s in
  let m := String.length suffix in
  bool_decide (m ≤ n ∧ String.substring (n - m) m s = suffix).

Definition is_nifti_name (name : string) : bool :=
  endswith name ".nii" || endswith name ".nii.gz".

(** The numerical kernels of the libraries. Their algorithms are outside
    the contracts of the pipeline, which is defined over any choice of
    them.
    - [f_oneway]: the ANOVA F-value of one feature against the labels;
    - [svm_fit], [svm_coef], [svm_predict]: the SVM optimiser, the
      weights of a fitted model and its decision rule;
    - [default_test_folds]: the test fold (0, 1 or 2) that the library's
      default 3-fold scheme gives to each sample;
    - [smooth]: spatial smoothing of one volume;
    - [signal_clean]: the signal cleaning (standardisation) of the
      masker, by session. *)
Class Library := {
  svm_model : Type;
  f_oneway : list Qc → list string → Qc;
  svm_fit : list (list Qc) → list string → option svm_model;
  svm_coef : svm_model → list (list Qc);
  svm_predict : svm_model → list (list Qc) → list string;
  default_test_folds : list string → list nat;
  smooth : Z → nat * nat * nat → list Qc → list Qc;
  signal_clean : list Z → bool → list (list Qc) → option (list (list Qc))
}.

(** ** Estimators, the masker and the script *)

Section Decoder.

Context `{Library}.

(** The address of an object. *)
Definition loc := nat.

(** The objects of the script: their parameters and, once fitted,
    what they have learned. *)
Inductive obj :=
| SVC_obj (kernel : string) (fitted : option svm_model)
| SelectKBest_obj (k : nat) (scores_ : option (list Qc))
| Pipeline_obj (steps : (string * loc) * (string * loc))
| NiftiMasker_obj (mask_img : string) (sessions : list Z)
    (smoothing_fwhm : Z) (standardize : bool)
    (mask_img_ : option (nat * nat * nat * list bool)).

Record world := World {
  heap : list obj;
  fs : gmap string file;
  out : list event
}.

(** A statement runs in a state and either fails or returns a value and
    a new state. *)
Definition M (A : Type) : Type := world → option (A * world).

#[global] Instance M_ret : MRet M := λ A x w, Some (x, w).
#[global] Instance M_bind : MBind M := λ A B f m w,
  match m w with
  | Some (a, w') => f a w'
  | None => None
  end.

(** An exception: the script handles none. *)
Definition raise {A} : M A := λ _, None.

Definition lift {A} (o : option A) : M A := λ w,
  match o with
  | Some a => Some (a, w)
  | None => None
  end.

(** A constructor call: the new object is put after all the others. *)
Definition alloc (o : obj) : M loc := λ w,
  Some (length (heap w),
        {| heap := heap w ++ [o]; fs := fs w; out := out w |}).

Definition load (l : loc) : M obj := λ w,
  match heap w !! l with
  | Some o => Some (o, w)
  | None => None
  end.

(** An object is updated in place: whoever refers to it sees the
    update. *)
Definition store (l : loc) (o : obj) : M unit := λ w,
  if decide (l < length (heap w)) then
    Some ((), {| heap := <[l := o]> (heap w); fs := fs w; out := out w |})
  else None.

Definition emit (e : event) : M unit := λ w,
  Some ((), {| heap := heap w; fs := fs w; out := out w ++ [e] |}).

Definition print (fmt : string) (args : list arg) : M unit :=
  emit (Printed fmt args).

Definition read_table (path : string) : M (list row) := λ w,
  match fs w !! path with
  | Some (TableFile t) => Some (t, w)
  | _ => None
  end.

Definition read_nifti (path : string) : M nifti := λ w,
  match fs w !! path with
  | Some (NiftiFile img) => Some (img, w)
  | _ => None
  end.

Definition write_file (path : string) (f : file) : M unit := λ w,
  Some ((), {| heap := heap w; fs := <[path := f]> (fs w); out := out w |}).

Fixpoint traverse {A B} (f : A → M B) (l : list A) : M (list B) :=
  match l with
  | [] => mret []
  | x :: l' => b ← f x; bs ← traverse f l'; mret (b :: bs)
  end.

(** [l[0]] *)
Definition getitem0 {A} (l : list A) : M A := lift (head l).

(** *** SelectKBest *)

Definition n_features (X : list (list Qc)) : nat :=
  match X with
  | [] => 0
  | r :: _ => length r
  end.

(** [f_classif]: one univariate score per feature. *)
Definition f_classif (X : list (list Qc)) (y : list string) : list Qc :=
  map (λ j, f_oneway (column X j) y) (seq 0 (n_features X)).

(** [SelectKBest(f_classif, k=k)] *)
Definition SelectKBest (k : nat) : M loc := alloc (SelectKBest_obj k None).

(** [fit] checks its input (at least one sample, as many labels as
    samples, no more than [n_features] features asked for) and keeps the
    scores. *)
Definition SelectKBest_fit (l : loc) (X : list (list Qc)) (y : list string)
    : M unit :=
  o ← load l;
  match o with
  | SelectKBest_obj k _ =>
      if decide (X ≠ [] ∧ length X = length y ∧ k ≤ n_features X) then
        store l (SelectKBest_obj k (Some (f_classif X y)))
      else raise
  | _ => raise
  end.

(** The support of fitted scores: the [k] best of a stable sort. *)
Definition support_of (k : nat) (scores : list Qc) : list bool :=
  mask_of_indices (length scores)
    (drop (length scores - k) (argsort scores)).

Definition get_support (l : loc) : M (list bool) :=
  o ← load l;
  match o with
  | SelectKBest_obj k (Some scores) => mret (support_of k scores)
  | _ => raise
  end.

(** [transform]: the columns of the support; a matrix of another width
    than the fitted one raises. *)
Definition SelectKBest_transform (l : loc) (X : list (list Qc))
    : M (list (list Qc)) :=
  support ← get_support l;
  lift (mapM (λ r, np.getitem r support) X).

(** [inverse_transform]: every row is laid out on the support, with
    zeros at the features that were not kept; a row that has not one
    value per kept feature raises. *)
Definition inverse_row (support : list bool) (r : list Qc)
    : option (list Qc) :=
  if decide (np.count_nonzero support = length r)
  then Some (scatter support r) else None.

Definition SelectKBest_inverse_transform (l : loc) (X : list (list Qc))
    : M (list (list Qc)) :=
  support ← get_support l;
  lift (mapM (inverse_row support) X).

(** *** SVC *)

(** [SVC(kernel=kernel)] *)
Definition SVC (kernel : string) : M loc := alloc (SVC_obj kernel None).

Definition SVC_fit (l : loc) (X : list (list Qc)) (y : list string)
    : M unit :=
  o ← load l;
  match o with
  | SVC_obj kernel _ =>
      m ← lift (svm_fit X y); store l (SVC_obj kernel (Some m))
  | _ => raise
  end.

Definition SVC_predict (l : loc) (X : list (list Qc)) : M (list string) :=
  o ← load l;
  match o with
  | SVC_obj _ (Some m) => mret (svm_predict m X)
  | _ => raise
  end.

(** [svc.coef_]: only for a fitted linear machine. *)
Definition SVC_coef_ (l : loc) : M (list (list Qc)) :=
  o ← load l;
  match o with
  | SVC_obj kernel (Some m) =>
      if decide (kernel = "linear"%string) then mret (svm_coef m) else raise
  | _ => raise
  end.

(** *** Pipeline *)

(** [Pipeline([(name, selector), (name, classifier)])]: the pipeline
    refers to the two objects it is given, it does not copy them. *)
Definition Pipeline (steps : (string * loc) * (string * loc)) : M loc :=
  alloc (Pipeline_obj steps).

(** [fit]: the selector is fitted and applied, then the classifier is
    fitted on the selected features, both in place. *)
Definition Pipeline_fit (p : loc) (X : list (list Qc)) (y : list string)
    : M unit :=
  o ← load p;
  match o with
  | Pipeline_obj ((_, anova), (_, svc)) =>
      SelectKBest_fit anova X y;;
      Xt ← SelectKBest_transform anova X;
      SVC_fit svc Xt y
  | _ => raise
  end.

Definition Pipeline_predict (p : loc) (X : list (list Qc))
    : M (list string) :=
  o ← load p;
  match o with
  | Pipeline_obj ((_, anova), (_, svc)) =>
      Xt ← SelectKBest_transform anova X;
      SVC_predict svc Xt
  | _ => raise
  end.

(** [score]: the accuracy of the predictions. *)
Definition Pipeline_score (p : loc) (X : list (list Qc)) (y : list string)
    : M Qc :=
  y_pred ← Pipeline_predict p X;
  lift (accuracy_score y y_pred).

(** [sklearn.base.clone], as the library documents it: a new, unfitted
    estimator with the same parameters; for a pipeline the steps are
    cloned too. *)
Definition clone (p : loc) : M loc :=
  o ← load p;
  match o with
  | Pipeline_obj ((name_a, anova), (name_s, svc)) =>
      oa ← load anova;
      os ← load svc;
      match oa, os with
      | SelectKBest_obj k _, SVC_obj kernel _ =>
          anova' ← alloc (SelectKBest_obj k None);
          svc' ← alloc (SVC_obj kernel None);
          alloc (Pipeline_obj ((name_a, anova'), (name_s, svc')))
      | _, _ => raise
      end
  | _ => raise
  end.

(** *** Cross-validation *)

(** [check_cv]: without a [cv] argument the library splits in 3
    folds; a cross-validation object is used as it is. The result is
    the list of test masks, the complement of each being the training
    set. *)
Definition check_cv (cv : option LeaveOneLabelOut_t) (y : list string)
    : option (list (list bool)) :=
  match cv with
  | None =>
      if decide (3 ≤ length y) then
        Some (map (λ i, np.equal (default_test_folds y) i) (seq 0 3))
      else None
  | Some c => Some (lolo_test_masks c)
  end.

(** One fold: fit on the rows outside the fold, score on the rows of the
    fold. *)
Definition fit_and_score (estimator : loc) (X : list (list Qc))
    (y : list string) (test : list bool) : M Qc :=
  let train := np.logical_not test in
  X_train ← lift (np.getitem X train);
  y_train ← lift (np.getitem y train);
  Pipeline_fit estimator X_train y_train;;
  X_test ← lift (np.getitem X test);
  y_test ← lift (np.getitem y test);
  Pipeline_score estimator X_test y_test.

(** [cross_val_score(estimator, X, y, cv=cv)], as the library documents
    it: every fold fits and scores a clone of the estimator; [cv] is
    [None] when the argument is not given. *)
Definition cross_val_score (estimator : loc) (X : list (list Qc))
    (y : list string) (cv : option LeaveOneLabelOut_t) : M (list Qc) :=
  folds ← lift (check_cv cv y);
  traverse (λ test, e ← clone estimator; fit_and_score e X y test) folds.

(** *** NiftiMasker and images *)

(** Modelled from the spec: the mask volume of the masker, a 3D image,
    read as the set of its non-zero voxels. *)
Definition load_mask (img : nifti) : option (nat * nat * nat * list bool) :=
  match vols img with
  | [v] =>
      if decide (length v = n_voxels (shape img)) then
        Some (shape img, map (λ x, bool_decide (x ≠ 0%Qc)) v)
      else None
  | _ => None
  end.

(** [NiftiMasker(mask_img=..., sessions=..., smoothing_fwhm=...,
    standardize=...)]; the cache of the masker ([memory],
    [memory_level]) is not modelled: the library keeps it in a
    directory of its own, [nilearn_cache], which is not among the files
    of [fs]. The files of [fs] are those that the statements of the
    script name, and nothing here says which other files a run
    leaves on the disk. *)
Definition NiftiMasker (mask_img : string) (sessions : list Z)
    (smoothing_fwhm : Z) (standardize : bool) : M loc :=
  alloc (NiftiMasker_obj mask_img sessions smoothing_fwhm standardize None).

(** Modelled from the spec: [NiftiMasker.fit_transform] is code of the
    library that the script calls. It turns the 4D volume into a
    sample-by-voxel matrix, one row per time point, by smoothing,
    spatial masking and standardisation; the masker keeps its mask. *)
Definition masker_fit_transform (m : loc) (imgs : string)
    : M (list (list Qc)) :=
  o ← load m;
  match o with
  | NiftiMasker_obj mask_img sessions fwhm standardize _ =>
      mimg ← read_nifti mask_img;
      msk ← lift (load_mask mimg);
      store m (NiftiMasker_obj mask_img sessions fwhm standardize (Some msk));;
      img ← read_nifti imgs;
      if decide (shape img = msk.1) then
        signals ← lift (mapM (λ v, np.getitem (smooth fwhm (shape img) v)
                                               msk.2) (vols img));
        lift (signal_clean sessions standardize signals)
      else raise
  | _ => raise
  end.

(** One row laid out on the voxels of the mask. *)
Definition unmask_row (msk : list bool) (r : list Qc) : option (list Qc) :=
  if decide (np.count_nonzero msk = length r)
  then Some (scatter msk r) else None.

(** Modelled from the spec: [NiftiMasker.inverse_transform] is code of
    the library that the script calls. Every row becomes a volume of
    the shape of the mask, with the row's values at the voxels of the
    mask and zero elsewhere; an unfitted masker raises. *)
Definition masker_inverse_transform (m : loc) (X : list (list Qc))
    : M nifti :=
  o ← load m;
  match o with
  | NiftiMasker_obj _ _ _ _ (Some msk) =>
      vs ← lift (mapM (unmask_row msk.2) X);
      mret (Nifti msk.1 vs)
  | _ => raise
  end.

(** Modelled from the spec: [image.mean_img], the voxel-wise mean
    over time, used as the background of the plot. *)
Definition mean_img (imgs : string) : M nifti :=
  img ← read_nifti imgs;
  means ← lift (mapM (λ j, np.mean (column (vols img) j))
                     (seq 0 (n_voxels (shape img))));
  mret (Nifti (shape img) [means]).

(** The plot and its display are recorded as events. *)
Definition plot_stat_map (stat_map bg : nifti) (title : string) : M unit :=
  emit (PlotStatMap stat_map bg title).

Definition show : M unit := emit Show.

(** [img.to_filename(name)] *)
Definition to_filename (img : nifti) (name : string) : M unit :=
  if is_nifti_name name then write_file name (NiftiFile img) else raise.

(** *** The script *)

(** The names bound when the script ends. *)
Record namespace := {
  v_labels : list row;
  v_condition_mask : list bool;
  v_y : list string;
  v_n_conditions : nat;
  v_masker : loc;
  v_X : list (list Qc);
  v_session : list Z;
  v_svc : loc;
  v_feature_selection : loc;
  v_anova_svc : loc;
  v_y_pred : list string;
  v_cv : LeaveOneLabelOut_t;
  v_cv_scores : list Qc;
  v_classification_accuracy : Qc;
  v_chance_level : Qc;
  v_coef : list (list Qc);
  v_weight_img : nifti;
  v_mean_img : nifti
}.

(** [plot_haxby_anova_svm.py], from line 18 on; [haxby_dataset] is the
    result of [datasets.fetch_haxby()], whose files are in the file
    system of the initial state. *)
Definition script (haxby_dataset : Bunch) : M namespace :=
  print "Mask nifti image (3D) is located at: %s"
    [AStr (mask haxby_dataset)];;
  func0 ← getitem0 (func haxby_dataset);
  print "Functional nifti image (4D) is located at: %s" [AStr func0];;
  (* Load the behavioral data *)
  target0 ← getitem0 (session_target haxby_dataset);
  labels ← read_table target0;
  let y := field_labels labels in
  let session := field_chunks labels in
  (* Restrict to faces and houses *)
  condition_mask ←
    lift (np.logical_or (np.equal y "face"%string)
                        (np.equal y "house"%string));
  y ← lift (np.getitem y condition_mask);
  let n_conditions := np.size (np.unique bytes_leb y) in
  (* Prepare the fMRI data: smooth and apply the mask *)
  let mask_filename := mask haxby_dataset in
  masker ← NiftiMasker mask_filename session 4 true;
  func_filename ← getitem0 (func haxby_dataset);
  X ← masker_fit_transform masker func_filename;
  X ← lift (np.getitem X condition_mask);
  session ← lift (np.getitem session condition_mask);
  (* Build the decoder *)
  svc ← SVC "linear";
  feature_selection ← SelectKBest 500;
  anova_svc ← Pipeline (("anova"%string, feature_selection),
                        ("svc"%string, svc));
  (* Fit the decoder and predict *)
  Pipeline_fit anova_svc X y;;
  y_pred ← Pipeline_predict anova_svc X;
  (* Obtain prediction scores via cross validation *)
  let cv := LeaveOneLabelOut (np.floor_divide session 2) in
  cv_scores ← cross_val_score anova_svc X y None;
  classification_accuracy ← lift (np.mean cv_scores);
  (* the second argument of the format: [1. / n_conditions] *)
  chance_level ← lift (true_divide 1 n_conditions);
  print "Classification accuracy: %.4f / Chance level: %f"
    [ANum classification_accuracy; ANum chance_level];;
  (* Visualize the results *)
  coef ← SVC_coef_ svc;
  coef ← SelectKBest_inverse_transform feature_selection coef;
  weight_img ← masker_inverse_transform masker coef;
  mean_img ← mean_img func_filename;
  plot_stat_map weight_img mean_img "SVM weights";;
  to_filename weight_img "haxby_face_vs_house.nii";;
  show;;
  mret {| v_labels := labels;
          v_condition_mask := condition_mask;
          v_y := y;
          v_n_conditions := n_conditions;
          v_masker := masker;
          v_X := X;
          v_session := session;
          v_svc := svc;
          v_feature_selection := feature_selection;
          v_anova_svc := anova_svc;
          v_y_pred := y_pred;
          v_cv := cv;
          v_cv_scores := cv_scores;
          v_classification_accuracy := classification_accuracy;
          v_chance_level := chance_level;
          v_coef := coef;
          v_weight_img := weight_img;
          v_mean_img := mean_img |}.

End Decoder.

(** ** The contracts of the pipeline, as functions

    The specification describes the composed pipeline and the
    cross-validator by what they compute, without objects:
    - [fit(X, y)] fits the feature selector on the training set,
      transforms the feature matrix, then fits the classifier on the
      transformed matrix and the labels; what is learned is the scores
      of the features and the decision boundary;
    - [predict(X)] applies the selector's transform, then the
      classifier's decision function;
    - the cross-validator fits, for each fold, on all rows outside the
      fold and scores prediction accuracy on the held-out rows.
    The heap-based estimators above are compared with these. *)

Section Contract.
Context `{Library}.

Definition spec_transform (k : nat) (scores : list Qc) (X : list (list Qc))
    : option (list (list Qc)) :=
  mapM (λ r, np.getitem r (support_of k scores)) X.

Definition spec_fit (k : nat) (X : list (list Qc)) (y : list string)
    : option (list Qc * svm_model) :=
  if decide (X ≠ [] ∧ length X = length y ∧ k ≤ n_features X) then
    Xt ← spec_transform k (f_classif X y) X;
    m ← svm_fit Xt y;
    Some (f_classif X y, m)
  else None.

Definition spec_predict (k : nat) (fitted : list Qc * svm_model)
    (X : list (list Qc)) : option (list string) :=
  Xt ← spec_transform k fitted.1 X;
  Some (svm_predict fitted.2 Xt).

Definition spec_fold_score (k : nat) (X : list (list Qc)) (y : list string)
    (test : list bool) : option Qc :=
  X_train ← np.getitem X (np.logical_not test);
  y_train ← np.getitem y (np.logical_not test);
  fitted ← spec_fit k X_train y_train;
  X_test ← np.getitem X test;
  y_test ← np.getitem y test;
  y_pred ← spec_predict k fitted X_test;
  accuracy_score y_test y_pred.

(** The number of distinct values of a sequence. *)
Definition n_distinct `{Countable A} (l : list A) : nat :=
  size (list_to_set l : gset A).

End Contract.

(** ** The statements of a successful run *)

Section Run.
Context `{Library}.

Definition results_format : string :=
  "Classification accuracy: %.4f / Chance level: %f".

(** What each statement of the script did in a run from [w] that ends
    in [w'] with the names [r]. *)
Inductive executed (ds : Bunch) (w : world) (r : namespace) (w' : world)
    : Prop :=
| Executed (func_filename target0 : string)
    (X0 coef0 : list (list Qc))
    (wc wg wi wp : world)
    (Hfunc : head (func ds) = Some func_filename)
    (Htarget : head (session_target ds) = Some target0)
    (Htable : fs w !! target0 = Some (TableFile (v_labels r)))
    (Hmask : np.logical_or
               (np.equal (field_labels (v_labels r)) "face"%string)
               (np.equal (field_labels (v_labels r)) "house"%string)
             = Some (v_condition_mask r))
    (Hy : np.getitem (field_labels (v_labels r)) (v_condition_mask r)
          = Some (v_y r))
    (Hn : v_n_conditions r = np.size (np.unique bytes_leb (v_y r)))
    (Hmasker : v_masker r = length (heap w))
    (Hft :
       masker_fit_transform (v_masker r) func_filename
         (World
            (heap w ++
             [NiftiMasker_obj (mask ds) (field_chunks (v_labels r)) 4 true
                None])
            (fs w)
            (out w ++
             [Printed "Mask nifti image (3D) is located at: %s"
                [AStr (mask ds)];
              Printed "Functional nifti image (4D) is located at: %s"
                [AStr func_filename]]))
       = Some (X0, wc))
    (HX : np.getitem X0 (v_condition_mask r) = Some (v_X r))
    (Hsession : np.getitem (field_chunks (v_labels r)) (v_condition_mask r)
                = Some (v_session r))
    (Hsvc : v_svc r = length (heap wc))
    (Hsel : v_feature_selection r = length (heap wc) + 1)
    (Hpipe : v_anova_svc r = length (heap wc) + 2)
    (Hfit :
       Pipeline_fit (v_anova_svc r) (v_X r) (v_y r)
         (World (heap wc ++
                 [SVC_obj "linear" None; SelectKBest_obj 500 None;
                  Pipeline_obj (("anova"%string, v_feature_selection r),
                                ("svc"%string, v_svc r))])
                (fs wc) (out wc))
       = Some ((), wg))
    (Hpred : Pipeline_predict (v_anova_svc r) (v_X r) wg
             = Some (v_y_pred r, wg))
    (Hcv : v_cv r = LeaveOneLabelOut (np.floor_divide (v_session r) 2))
    (Hscores :
       cross_val_score (v_anova_svc r) (v_X r) (v_y r) None wg
       = Some (v_cv_scores r, wi))
    (Hacc : np.mean (v_cv_scores r) = Some (v_classification_accuracy r))
    (Hchance : true_divide 1 (v_n_conditions r) = Some (v_chance_level r))
    (Hprint :
       wp = World (heap wi) (fs wi)
              (out wi ++
               [Printed results_format
                  [ANum (v_classification_accuracy r);
                   ANum (v_chance_level r)]]))
    (Hcoef : SVC_coef_ (v_svc r) wp = Some (coef0, wp))
    (Hinv :
       SelectKBest_inverse_transform (v_feature_selection r) coef0 wp
       = Some (v_coef r, wp))
    (Hweight : masker_inverse_transform (v_masker r) (v_coef r) wp
               = Some (v_weight_img r, wp))
    (Hmean : mean_img func_filename wp = Some (v_mean_img r, wp))
    (Hend :
       w' = World (heap wp)
              (<["haxby_face_vs_house.nii"%string :=
                  NiftiFile (v_weight_img r)]> (fs wp))
              (out wp ++
               [PlotStatMap (v_weight_img r) (v_mean_img r) "SVM weights";
                Show])).

(** The objects of the caller once the pipeline is fitted: the masker
    and its mask, the machine and its model, the selector and its
    scores, and the pipeline that refers to the last two. *)
Definition fitted_objects (ds : Bunch) (r : namespace)
    (msk : nat * nat * nat * list bool) (m : svm_model) : list obj :=
  [NiftiMasker_obj (mask ds) (field_chunks (v_labels r)) 4 true (Some msk);
   SVC_obj "linear" (Some m);
   SelectKBest_obj 500 (Some (f_classif (v_X r) (v_y r)));
   Pipeline_obj (("anova"%string, v_feature_selection r),
                 ("svc"%string, v_svc r))].

(** The same run, with every call on an object replaced by what it
    computes and by its effect on the heap. *)
Inductive outcome (ds : Bunch) (w : world) (r : namespace) (w' : world)
    : Prop :=
| Outcome (func_filename target0 : string) (mimg img : nifti)
    (msk : nat * nat * nat * list bool)
    (signals X0 vs : list (list Qc)) (m : svm_model)
    (folds : list (list bool)) (hs : list obj) (wf wg wi : world)
    (Ofunc : head (func ds) = Some func_filename)
    (Otarget : head (session_target ds) = Some target0)
    (Otable : fs w !! target0 = Some (TableFile (v_labels r)))
    (Omask_file : fs w !! mask ds = Some (NiftiFile mimg))
    (Omsk : load_mask mimg = Some msk)
    (Oimg : fs w !! func_filename = Some (NiftiFile img))
    (Oshape : shape img = msk.1)
    (Osignals :
       mapM (λ v, np.getitem (smooth 4 (shape img) v) msk.2) (vols img)
       = Some signals)
    (Oclean : signal_clean (field_chunks (v_labels r)) true signals
              = Some X0)
    (Ocm : np.logical_or
             (np.equal (field_labels (v_labels r)) "face"%string)
             (np.equal (field_labels (v_labels r)) "house"%string)
           = Some (v_condition_mask r))
    (Oy : np.getitem (field_labels (v_labels r)) (v_condition_mask r)
          = Some (v_y r))
    (OX : np.getitem X0 (v_condition_mask r) = Some (v_X r))
    (Osession : np.getitem (field_chunks (v_labels r)) (v_condition_mask r)
                = Some (v_session r))
    (On : v_n_conditions r = np.size (np.unique bytes_leb (v_y r)))
    (Omasker : v_masker r = length (heap w))
    (Osvc : v_svc r = length (heap w) + 1)
    (Osel : v_feature_selection r = length (heap w) + 2)
    (Opipe : v_anova_svc r = length (heap w) + 3)
    (Ofit_call : Pipeline_fit (v_anova_svc r) (v_X r) (v_y r) wf
                 = Some ((), wg))
    (Ofit : spec_fit 500 (v_X r) (v_y r)
            = Some (f_classif (v_X r) (v_y r), m))
    (Oheap_fit : heap wg = heap w ++ fitted_objects ds r msk m)
    (Opred : spec_predict 500 (f_classif (v_X r) (v_y r), m) (v_X r)
             = Some (v_y_pred r))
    (Ocv : v_cv r = LeaveOneLabelOut (np.floor_divide (v_session r) 2))
    (Oscores_call :
       cross_val_score (v_anova_svc r) (v_X r) (v_y r) None wg
       = Some (v_cv_scores r, wi))
    (Ofolds : check_cv None (v_y r) = Some folds)
    (Oscores : mapM (spec_fold_score 500 (v_X r) (v_y r)) folds
               = Some (v_cv_scores r))
    (Oheap_cv : heap wi = heap wg ++ hs)
    (Oacc : np.mean (v_cv_scores r) = Some (v_classification_accuracy r))
    (Ochance : true_divide 1 (v_n_conditions r) = Some (v_chance_level r))
    (Ocoef :
       mapM (inverse_row (support_of 500 (f_classif (v_X r) (v_y r))))
            (svm_coef m)
       = Some (v_coef r))
    (Oweight : mapM (unmask_row msk.2) (v_coef r) = Some vs)
    (Oweight_img : v_weight_img r = Nifti msk.1 vs)
    (Oheap : heap w' = heap wi)
    (Ofs : fs w' = <["haxby_face_vs_house.nii"%string :=
                      NiftiFile (v_weight_img r)]> (fs w))
    (Oout :
       out w' = out w ++
         [Printed "Mask nifti image (3D) is located at: %s"
            [AStr (mask ds)];
          Printed "Functional nifti image (4D) is located at: %s"
            [AStr func_filename];
          Printed results_format
            [ANum (v_classification_accuracy r); ANum (v_chance_level r)];
          PlotStatMap (v_weight_img r) (v_mean_img r) "SVM weights";
          Show]).

End Run.

(** ** A small library and a small dataset

    An instance of the kernels that computes, used to run the script:
    the score of a feature is the squared difference of its sums over
    the two classes, the machine's weights are these differences, the
    default folds are taken in turn, and smoothing and cleaning leave
    the data as they are. *)

Module Toy.

Definition class_sum (c : string) (col : list Qc) (y : list string) : Qc :=
  np.sum (np.compress (np.equal y c) col).

Definition contrast (col : list Qc) (y : list string) : Qc :=
  (class_sum "face" col y - class_sum "house" col y)%Qc.

Definition dot (u v : list Qc) : Qc :=
  np.sum (zip_with Qcmult u v).

Definition fit (X : list (list Qc)) (y : list string)
    : option (list (list Qc)) :=
  if decide (2 ≤ length (remove_dups y)) then
    Some [map (λ j, contrast (column X j) y) (seq 0 (n_features X))]
  else None.

Definition predict (m : list (list Qc)) (X : list (list Qc)) : list string :=
  map (λ r, if Qle_bool 0 (this (dot (default [] (head m)) r))
            then "face"%string else "house"%string) X.

#[export] Instance library : Library := {|
  svm_model := list (list Qc);
  f_oneway := λ col y, (contrast col y * contrast col y)%Qc;
  svm_fit := fit;
  svm_coef := λ m, m;
  svm_predict := predict;
  default_test_folds := λ y, map (λ i, i `mod` 3) (seq 0 (length y));
  smooth := λ _ _ v, v;
  signal_clean := λ _ _ X, Some X
|}.

Definition num (z : Z) : Qc := Q2Qc (inject_Z z).

Definition mask_path : string := "mask.nii".
Definition func_path : string := "bold.nii".
Definition target_path : string := "labels.txt".

Definition haxby_dataset : Bunch :=
  {| mask := mask_path; func := [func_path];
     session_target := [target_path] |}.

(** Six time points in two sessions; two of them are at rest. *)
Definition table : list row :=
  [ {| labels := "rest"; chunks := 0 |};
    {| labels := "face"; chunks := 0 |};
    {| labels := "house"; chunks := 0 |};
    {| labels := "face"; chunks := 1 |};
    {| labels := "house"; chunks := 1 |};
    {| labels := "rest"; chunks := 1 |} ].

Definition dims : nat * nat * nat := (5, 10, 12).

(** The mask leaves out one voxel in ten. *)
Definition mask_img : nifti :=
  Nifti dims [map (λ i, if decide (i `mod` 10 = 0) then 0%Qc else 1%Qc)
                  (seq 0 (n_voxels dims))].

Definition voxel (t : nat) (l : string) (i : nat) : Qc :=
  let a := ((Z.of_nat i * (Z.of_nat t + 3)) `mod` 11)%Z in
  if decide (l = "face"%string) then num (a - 3)
  else if decide (l = "house"%string) then num (4 - a)
  else num 0.

Definition func_img : nifti :=
  Nifti dims (imap (λ t r, map (voxel t (labels r)) (seq 0 (n_voxels dims)))
                   table).

Definition files : gmap string file :=
  {[ mask_path := NiftiFile mask_img;
     func_path := NiftiFile func_img;
     target_path := TableFile table ]}.

Definition world0 : world := World [] files [].

Definition run : option (namespace * world) := script haxby_dataset world0.

End Toy.

(** ** The end-to-end scenario of the specification

    Four rows, [face] and [house] in session 0 and in session 1, on the
    volume and with the kernels of the small library. *)

Module Scenario.

Definition table : list row :=
  [ {| labels := "face"; chunks := 0 |};
    {| labels := "house"; chunks := 0 |};
    {| labels := "face"; chunks := 1 |};
    {| labels := "house"; chunks := 1 |} ].

Definition func_img : nifti :=
  Nifti Toy.dims
    (imap (λ t r, map (Toy.voxel t (labels r)) (seq 0 (n_voxels Toy.dims)))
          table).

Definition files : gmap string file :=
  {[ Toy.mask_path := NiftiFile Toy.mask_img;
     Toy.func_path := NiftiFile func_img;
     Toy.target_path := TableFile table ]}.

Definition world0 : @world Toy.library := World [] files [].

Definition run : option (namespace * @world Toy.library) :=
  script Toy.haxby_dataset world0.

(** What the scenario is observed on: the filtered sessions, the number
    of scores, the number of groups of the splitter that the script
    builds and the number of distinct sessions. *)
Definition observe (r : namespace) : list Z * nat * nat * nat :=
  (v_session r,
   length (v_cv_scores r),
   length (lolo_test_masks (v_cv r)),
   length (lolo_test_masks (LeaveOneLabelOut (v_session r)))).

Definition observed : option (list Z * nat * nat * nat) :=
  option_map (λ rw, observe (fst rw)) run.

End Scenario.

(** ** A table that is too short

    Three lines, of which two are retained: fewer samples than the
    cross-validation has folds. *)

Module Short.

Definition table : list row :=
  [ {| labels := "face"; chunks := 0 |};
    {| labels := "rest"; chunks := 0 |};
    {| labels := "house"; chunks := 0 |} ].

Definition files : gmap string file :=
  {[ Toy.mask_path := NiftiFile Toy.mask_img;
     Toy.target_path := TableFile table ]}.

Definition world0 : @world Toy.library := World [] files [].

End Short.

(** ** The small dataset with other labels

    The images and the sessions of the small dataset, with the
    conditions in another order. *)

Module Relabelled.

Definition table : list row :=
  [ {| labels := "face"; chunks := 0 |};
    {| labels := "rest"; chunks := 0 |};
    {| labels := "house"; chunks := 0 |};
    {| labels := "face"; chunks := 1 |};
    {| labels := "house"; chunks := 1 |};
    {| labels := "rest"; chunks := 1 |} ].

Definition files : gmap string file :=
  {[ Toy.mask_path := NiftiFile Toy.mask_img;
     Toy.func_path := NiftiFile Toy.func_img;
     Toy.target_path := TableFile table ]}.

Definition world0 : @world Toy.library := World [] files [].

Definition run : option (namespace * @world Toy.library) :=
  script Toy.haxby_dataset world0.

End Relabelled.

(** ** Facts on arrays *)

Section ArrayFacts.
Context {A : Type}.


Lemma compress_length (mask : list bool) (a : list A) :
  length mask = length a →
  length (np.compress mask a) = np.count_nonzero mask.
Proof.
  revert a; induction mask as [|b mask IH]; intros [|x a] Hl;
    simpl in *; try done.
  destruct b; simpl; rewrite IH; lia.
Qed.

Lemma elem_of_compress (mask : list bool) (a : list A) (x : A) :
  x ∈ np.compress mask a ↔
  ∃ i, mask !! i = Some true ∧ a !! i = Some x.
Proof.
  revert a; induction mask as [|b mask IH]; intros [|y a]; simpl.
  - split; [by intros ?%elem_of_nil | by intros (i & ? & ?)].
  - split; [by intros ?%elem_of_nil | by intros (i & ? & ?)].
  - split; [by intros ?%elem_of_nil | by intros (i & ? & ?)].
  - destruct b.
    + rewrite elem_of_cons, IH. split.
      * intros [->|(i & ? & ?)]; [by exists 0 | by exists (S i)].
      * intros ([|i] & Hm & Ha); simpl in *; [left; congruence|].
        right; eauto.
    + rewrite IH. split.
      * intros (i & ? & ?). by exists (S i).
      * intros ([|i] & Hm & Ha); simpl in *; [done|]. eauto.
Qed.

Lemma getitem_Some (a : list A) (mask : list bool) (r : list A) :
  np.getitem a mask = Some r →
  length mask = length a ∧ r = np.compress mask a.
Proof. unfold np.getitem. case_decide; naive_solver. Qed.

Lemma getitem_same_length (a : list A) (mask : list bool) :
  length mask = length a → np.getitem a mask = Some (np.compress mask a).
Proof. intros H. unfold np.getitem. by rewrite decide_True. Qed.

End ArrayFacts.

Section UniqueFacts.
Context {A : Type} `{EqDecision A} (leb : A → A → bool).

Lemma insert_sorted_perm (x : A) (l : list A) :
  np.insert_sorted leb x l ≡ₚ x :: l.
Proof.
  induction l as [|z l IH]; simpl; [done|].
  destruct (leb x z); [done|]. rewrite IH. apply Permutation_swap.
Qed.

Lemma sort_perm (l : list A) : foldr (np.insert_sorted leb) [] l ≡ₚ l.
Proof.
  induction l as [|x l IH]; simpl; [done|].
  by rewrite insert_sorted_perm, IH.
Qed.

Lemma unique_perm (a : list A) : np.unique leb a ≡ₚ remove_dups a.
Proof. apply sort_perm. Qed.

Lemma elem_of_unique (y : A) (a : list A) :
  y ∈ np.unique leb a ↔ y ∈ a.
Proof. by rewrite unique_perm, elem_of_remove_dups. Qed.

Lemma NoDup_unique (a : list A) : NoDup (np.unique leb a).
Proof. rewrite unique_perm. apply NoDup_remove_dups. Qed.

End UniqueFacts.


(** ** Facts on the state monad *)

Section MonadFacts.
Context `{Library}.

Lemma bind_Some {A B} (m : M A) (f : A → M B) w b w' :
  (m ≫= f) w = Some (b, w') →
  ∃ a w1, m w = Some (a, w1) ∧ f a w1 = Some (b, w').
Proof.
  unfold mbind, M_bind. destruct (m w) as [[a w1]|]; [|done]. eauto.
Qed.

Lemma ret_Some {A} (x : A) w b w' :
  mret (M := M) x w = Some (b, w') → b = x ∧ w' = w.
Proof. unfold mret, M_ret. naive_solver. Qed.

Lemma lift_Some {A} (o : option A) w a w' :
  lift o w = Some (a, w') → o = Some a ∧ w' = w.
Proof. unfold lift. destruct o; naive_solver. Qed.

Lemma load_Some l w o w' :
  load l w = Some (o, w') → heap w !! l = Some o ∧ w' = w.
Proof. unfold load. destruct (heap w !! l); naive_solver. Qed.

Lemma alloc_Some o w l w' :
  alloc o w = Some (l, w') →
  l = length (heap w) ∧ w' = World (heap w ++ [o]) (fs w) (out w).
Proof. unfold alloc. naive_solver. Qed.

Lemma store_Some l o w u w' :
  store l o w = Some (u, w') →
  l < length (heap w) ∧ w' = World (<[l := o]> (heap w)) (fs w) (out w).
Proof. unfold store. case_decide; naive_solver. Qed.

Lemma emit_Some e w u w' :
  emit e w = Some (u, w') → w' = World (heap w) (fs w) (out w ++ [e]).
Proof. unfold emit. naive_solver. Qed.

Lemma read_table_Some path w t w' :
  read_table path w = Some (t, w') →
  fs w !! path = Some (TableFile t) ∧ w' = w.
Proof.
  unfold read_table. destruct (fs w !! path) as [[]|]; naive_solver.
Qed.

Lemma read_nifti_Some path w img w' :
  read_nifti path w = Some (img, w') →
  fs w !! path = Some (NiftiFile img) ∧ w' = w.
Proof.
  unfold read_nifti. destruct (fs w !! path) as [[]|]; naive_solver.
Qed.

Lemma write_file_Some path f w u w' :
  write_file path f w = Some (u, w') →
  w' = World (heap w) (<[path := f]> (fs w)) (out w).
Proof. unfold write_file. naive_solver. Qed.

End MonadFacts.

(** Inversion of a successful run, one statement at a time. *)
Ltac inv_prim E :=
  first
    [ apply load_Some in E as [E ?]
    | apply lift_Some in E as [E ?]
    | apply alloc_Some in E as [? ?]
    | apply store_Some in E as [E ?]
    | apply emit_Some in E
    | apply ret_Some in E as [? ?]
    | apply read_table_Some in E as [E ?]
    | apply read_nifti_Some in E as [E ?]
    | apply write_file_Some in E
    | idtac ].

Ltac inv_run H :=
  repeat
    (cbv beta zeta in H;
     match type of H with
     | (_ ≫= _) _ = Some _ =>
         let a := fresh "a" in
         let w := fresh "w" in
         let E := fresh "E" in
         apply bind_Some in H as (a & w & E & H); inv_prim E
     | raise _ = Some _ => discriminate H
     | (match ?o with _ => _ end) _ = Some _ => destruct o; try discriminate H
     | (if ?b then _ else _) _ = Some _ => destruct b; try discriminate H
     end);
  inv_prim H.

(** ** What the operations on objects do *)

Section Operations.
Context `{Library}.

Lemma get_support_Some l w sup w' :
  get_support l w = Some (sup, w') →
  w' = w ∧ ∃ k scores,
    heap w !! l = Some (SelectKBest_obj k (Some scores)) ∧
    sup = support_of k scores.
Proof.
  intros Hrun. unfold get_support in Hrun. inv_run Hrun. subst.
  eauto 10.
Qed.

Lemma SelectKBest_transform_Some l X w Xt w' :
  SelectKBest_transform l X w = Some (Xt, w') →
  w' = w ∧ ∃ k scores,
    heap w !! l = Some (SelectKBest_obj k (Some scores)) ∧
    spec_transform k scores X = Some Xt.
Proof.
  intros Hrun. unfold SelectKBest_transform in Hrun. inv_run Hrun.
  apply get_support_Some in E as (-> & k & scores & Hl & ->).
  subst. eauto 10.
Qed.

Lemma SelectKBest_inverse_transform_Some l X w Xi w' :
  SelectKBest_inverse_transform l X w = Some (Xi, w') →
  w' = w ∧ ∃ k scores,
    heap w !! l = Some (SelectKBest_obj k (Some scores)) ∧
    mapM (inverse_row (support_of k scores)) X = Some Xi.
Proof.
  intros Hrun. unfold SelectKBest_inverse_transform in Hrun. inv_run Hrun.
  apply get_support_Some in E as (-> & k & scores & Hl & ->).
  subst. eauto 10.
Qed.

Lemma SelectKBest_fit_Some l X y w u w' :
  SelectKBest_fit l X y w = Some (u, w') →
  ∃ k old,
    heap w !! l = Some (SelectKBest_obj k old) ∧
    (X ≠ [] ∧ length X = length y ∧ k ≤ n_features X) ∧
    w' = World (<[l := SelectKBest_obj k (Some (f_classif X y))]> (heap w))
           (fs w) (out w).
Proof.
  intros Hrun. unfold SelectKBest_fit in Hrun. inv_run Hrun. subst.
  eauto 10.
Qed.

Lemma SVC_fit_Some l X y w u w' :
  SVC_fit l X y w = Some (u, w') →
  ∃ kernel old m,
    heap w !! l = Some (SVC_obj kernel old) ∧
    svm_fit X y = Some m ∧
    w' = World (<[l := SVC_obj kernel (Some m)]> (heap w)) (fs w) (out w).
Proof.
  intros Hrun. unfold SVC_fit in Hrun. inv_run Hrun. subst. eauto 10.
Qed.

Lemma SVC_predict_Some l X w yp w' :
  SVC_predict l X w = Some (yp, w') →
  w' = w ∧ ∃ kernel m,
    heap w !! l = Some (SVC_obj kernel (Some m)) ∧ yp = svm_predict m X.
Proof.
  intros Hrun. unfold SVC_predict in Hrun. inv_run Hrun. subst. eauto 10.
Qed.

Lemma SVC_coef_Some l w c w' :
  SVC_coef_ l w = Some (c, w') →
  w' = w ∧ ∃ m,
    heap w !! l = Some (SVC_obj "linear" (Some m)) ∧ c = svm_coef m.
Proof.
  intros Hrun. unfold SVC_coef_ in Hrun. inv_run Hrun. subst. eauto 10.
Qed.

(** [fit] on a pipeline fits its two steps in place, as the contract
    says, and touches nothing else. *)
Lemma Pipeline_fit_Some p X y w u w' :
  Pipeline_fit p X y w = Some (u, w') →
  ∃ na anova ns svc k old_a kernel old_s m,
    heap w !! p = Some (Pipeline_obj ((na, anova), (ns, svc))) ∧
    heap w !! anova = Some (SelectKBest_obj k old_a) ∧
    heap w !! svc = Some (SVC_obj kernel old_s) ∧
    spec_fit k X y = Some (f_classif X y, m) ∧
    w' = World (<[svc := SVC_obj kernel (Some m)]>
                  (<[anova := SelectKBest_obj k (Some (f_classif X y))]>
                     (heap w)))
           (fs w) (out w).
Proof.
  intros Hrun. unfold Pipeline_fit in Hrun. inv_run Hrun. subst w0.
  apply SelectKBest_fit_Some in E0 as (k & old & Hl & Hchk & ->).
  apply SelectKBest_transform_Some in E1 as (-> & k' & sc & Hl' & Ht).
  apply SVC_fit_Some in Hrun as (kernel & old_s & m & Hs & Hm & ->).
  simpl in *.
  rewrite list_lookup_insert_eq in Hl' by eauto using lookup_lt_Some.
  injection Hl' as <- <-.
  assert (l ≠ l0) as Hne.
  { intros ->.
    rewrite list_lookup_insert_eq in Hs by eauto using lookup_lt_Some.
    done. }
  rewrite list_lookup_insert_ne in Hs by done.
  exists s, l, s0, l0, k, old, kernel, old_s, m.
  repeat split; try done.
  unfold spec_fit. rewrite decide_True by done.
  rewrite Ht. simpl. by rewrite Hm.
Qed.

Lemma Pipeline_predict_Some p X w yp w' :
  Pipeline_predict p X w = Some (yp, w') →
  w' = w ∧ ∃ na anova ns svc k scores kernel m,
    heap w !! p = Some (Pipeline_obj ((na, anova), (ns, svc))) ∧
    heap w !! anova = Some (SelectKBest_obj k (Some scores)) ∧
    heap w !! svc = Some (SVC_obj kernel (Some m)) ∧
    spec_predict k (scores, m) X = Some yp.
Proof.
  intros Hrun. unfold Pipeline_predict in Hrun. inv_run Hrun. subst w0.
  apply SelectKBest_transform_Some in E0 as (-> & k & sc & Hl & Ht).
  apply SVC_predict_Some in Hrun as (-> & kernel & m & Hs & ->).
  split; [done|].
  exists s, l, s0, l0, k, sc, kernel, m. repeat split; try done.
  unfold spec_predict. simpl. by rewrite Ht.
Qed.

Lemma Pipeline_score_Some p X y w q w' :
  Pipeline_score p X y w = Some (q, w') →
  w' = w ∧ ∃ na anova ns svc k scores kernel m y_pred,
    heap w !! p = Some (Pipeline_obj ((na, anova), (ns, svc))) ∧
    heap w !! anova = Some (SelectKBest_obj k (Some scores)) ∧
    heap w !! svc = Some (SVC_obj kernel (Some m)) ∧
    spec_predict k (scores, m) X = Some y_pred ∧
    accuracy_score y y_pred = Some q.
Proof.
  intros Hrun. unfold Pipeline_score in Hrun. inv_run Hrun.
  apply Pipeline_predict_Some in E as (-> & Hp). subst.
  split; [done|]. destruct Hp as (na & an & ns & sv & k & sc & kn & m & Hp).
  exists na, an, ns, sv, k, sc, kn, m, a. naive_solver.
Qed.

(** A clone is made of three new objects, after all the others. *)
Lemma clone_Some p w e w' :
  clone p w = Some (e, w') →
  ∃ na anova ns svc k old_a kernel old_s,
    heap w !! p = Some (Pipeline_obj ((na, anova), (ns, svc))) ∧
    heap w !! anova = Some (SelectKBest_obj k old_a) ∧
    heap w !! svc = Some (SVC_obj kernel old_s) ∧
    e = length (heap w) + 2 ∧
    w' = World (heap w ++
                [SelectKBest_obj k None; SVC_obj kernel None;
                 Pipeline_obj ((na, length (heap w)),
                               (ns, length (heap w) + 1))])
           (fs w) (out w).
Proof.
  intros Hrun. unfold clone in Hrun. inv_run Hrun. subst. simpl.
  exists s, l, s0, l0, k, scores_, kernel, fitted.
  repeat split; try done.
  - rewrite !length_app. simpl. lia.
  - rewrite <- !app_assoc. simpl. rewrite !length_app. simpl.
    by replace (length (heap w) + 1) with (S (length (heap w))) by lia.
Qed.

Lemma lookup_app_plus {A} (h t : list A) (i : nat) :
  (h ++ t) !! (length h + i) = t !! i.
Proof.
  rewrite lookup_app_r by lia. f_equal. lia.
Qed.

Lemma lookup_app_length {A} (h t : list A) :
  (h ++ t) !! length h = t !! 0.
Proof. by rewrite <- (lookup_app_plus h t 0), Nat.add_0_r. Qed.

Lemma insert_app_length {A} (h t : list A) (x : A) :
  <[length h := x]> (h ++ t) = h ++ <[0 := x]> t.
Proof. by rewrite <- (insert_app_r h t 0 x), Nat.add_0_r. Qed.

Lemma insert_clone_steps (h : list obj) (a s p a' s' : obj) :
  <[length h + 1 := s']> (<[length h := a']> (h ++ [a; s; p]))
  = h ++ [a'; s'; p].
Proof.
  replace (length h) with (length h + 0) at 2 by lia.
  by rewrite !insert_app_r.
Qed.

(** One fold of the cross-validation: the clone is fitted and scored
    as the contract says, and the objects that existed before are
    left as they were. *)
Lemma fold_Some p X y test w q w' :
  (e ← clone p; fit_and_score e X y test) w = Some (q, w') →
  ∃ na anova ns svc k old_a kernel old_s hs,
    heap w !! p = Some (Pipeline_obj ((na, anova), (ns, svc))) ∧
    heap w !! anova = Some (SelectKBest_obj k old_a) ∧
    heap w !! svc = Some (SVC_obj kernel old_s) ∧
    spec_fold_score k X y test = Some q ∧
    w' = World (heap w ++ hs) (fs w) (out w).
Proof.
  intros Hrun. inv_run Hrun.
  apply clone_Some in E
    as (na & an & ns & sv & k & oa & kn & os & Hp & Ha & Hs & -> & ->).
  unfold fit_and_score in Hrun. inv_run Hrun. subst.
  apply Pipeline_fit_Some in E1
    as (na' & an' & ns' & sv' & k' & oa' & kn' & os' & m
        & Hp' & Ha' & Hs' & Hfit & ->).
  simpl in *.
  rewrite lookup_app_plus in Hp'. simpl in Hp'.
  injection Hp' as <- <- <- <-.
  replace (length (heap w)) with (length (heap w) + 0) in Ha' by lia.
  rewrite lookup_app_plus in Ha'. simpl in Ha'. injection Ha' as <- <-.
  rewrite lookup_app_plus in Hs'. simpl in Hs'. injection Hs' as <- <-.
  rewrite insert_clone_steps in Hrun.
  apply Pipeline_score_Some in Hrun
    as (-> & na' & an' & ns' & sv' & k' & sc & kn' & m' & yp
        & Hp' & Ha' & Hs' & Hpred & Hacc).
  simpl in *.
  rewrite lookup_app_plus in Hp'. simpl in Hp'.
  injection Hp' as <- <- <- <-.
  replace (length (heap w)) with (length (heap w) + 0) in Ha' by lia.
  rewrite lookup_app_plus in Ha'. simpl in Ha'. injection Ha' as <- <-.
  rewrite lookup_app_plus in Hs'. simpl in Hs'. injection Hs' as <- <-.
  exists na, an, ns, sv, k, oa, kn, os. eexists.
  repeat split; try done.
  unfold spec_fold_score.
  rewrite E, E0. simpl. rewrite Hfit. simpl. rewrite E2, E3. simpl.
  rewrite Hpred. simpl. done.
Qed.

Lemma world_app_nil w : w = World (heap w ++ []) (fs w) (out w).
Proof. destruct w. simpl. by rewrite app_nil_r. Qed.

Lemma traverse_folds_Some p X y folds : ∀ w scores w',
  traverse (λ test, e ← clone p; fit_and_score e X y test) folds w
  = Some (scores, w') →
  ∀ na anova ns svc k old_a kernel old_s,
    heap w !! p = Some (Pipeline_obj ((na, anova), (ns, svc))) →
    heap w !! anova = Some (SelectKBest_obj k old_a) →
    heap w !! svc = Some (SVC_obj kernel old_s) →
    mapM (spec_fold_score k X y) folds = Some scores ∧
    ∃ hs, w' = World (heap w ++ hs) (fs w) (out w).
Proof.
  induction folds as [|test folds IH];
    intros w scores w' Hrun na an ns sv k oa kn os Hp Ha Hs.
  - simpl in Hrun. apply ret_Some in Hrun as [-> ->].
    split; [done|]. exists []. apply world_app_nil.
  - simpl in Hrun.
    apply bind_Some in Hrun as (q & w1 & Hfold & Hrun).
    apply bind_Some in Hrun as (qs & w2 & Hrest & Hrun).
    apply ret_Some in Hrun as [-> ->].
    apply fold_Some in Hfold
      as (na' & an' & ns' & sv' & k' & oa' & kn' & os' & hs
          & Hp' & Ha' & Hs' & Hq & ->).
    rewrite Hp in Hp'. injection Hp' as <- <- <- <-.
    rewrite Ha in Ha'. injection Ha' as <- <-.
    eapply IH in Hrest as [Hqs (hs' & ->)]; simpl;
      eauto using lookup_app_l_Some.
    split.
    + simpl. rewrite Hq. simpl. rewrite Hqs. done.
    + exists (hs ++ hs'). simpl. by rewrite app_assoc.
Qed.

(** The scores of [cross_val_score] are those of the contract on the
    folds of the scheme, and the call only adds objects: the
    estimator it is given and every other object of the caller are
    left as they were. *)
Lemma cross_val_score_Some p X y cv w scores w' :
  cross_val_score p X y cv w = Some (scores, w') →
  ∀ na anova ns svc k old_a kernel old_s,
    heap w !! p = Some (Pipeline_obj ((na, anova), (ns, svc))) →
    heap w !! anova = Some (SelectKBest_obj k old_a) →
    heap w !! svc = Some (SVC_obj kernel old_s) →
    ∃ folds hs,
      check_cv cv y = Some folds ∧
      mapM (spec_fold_score k X y) folds = Some scores ∧
      w' = World (heap w ++ hs) (fs w) (out w).
Proof.
  intros Hrun na an ns sv k oa kn os Hp Ha Hs.
  unfold cross_val_score in Hrun.
  apply bind_Some in Hrun as (folds & w1 & Hcv & Hrun).
  apply lift_Some in Hcv as [Hcv ->].
  eapply traverse_folds_Some in Hrun as [Hscores (hs & ->)]; eauto.
Qed.

Lemma masker_fit_transform_Some m imgs w X w' :
  masker_fit_transform m imgs w = Some (X, w') →
  ∃ mask_img sessions fwhm standardize old mimg img msk signals,
    heap w !! m
    = Some (NiftiMasker_obj mask_img sessions fwhm standardize old) ∧
    fs w !! mask_img = Some (NiftiFile mimg) ∧
    load_mask mimg = Some msk ∧
    fs w !! imgs = Some (NiftiFile img) ∧
    shape img = msk.1 ∧
    mapM (λ v, np.getitem (smooth fwhm (shape img) v) msk.2) (vols img)
    = Some signals ∧
    signal_clean sessions standardize signals = Some X ∧
    w' = World (<[m := NiftiMasker_obj mask_img sessions fwhm standardize
                         (Some msk)]> (heap w))
           (fs w) (out w).
Proof.
  intros Hrun. unfold masker_fit_transform in Hrun. inv_run Hrun.
  subst. simpl in *.
  exists mask_img, sessions, smoothing_fwhm, standardize, mask_img_.
  eauto 12.
Qed.

Lemma masker_inverse_transform_Some m X w img w' :
  masker_inverse_transform m X w = Some (img, w') →
  w' = w ∧ ∃ mask_img sessions fwhm standardize msk vs,
    heap w !! m
    = Some (NiftiMasker_obj mask_img sessions fwhm standardize (Some msk)) ∧
    mapM (unmask_row msk.2) X = Some vs ∧
    img = Nifti msk.1 vs.
Proof.
  intros Hrun. unfold masker_inverse_transform in Hrun. inv_run Hrun.
  subst. eauto 12.
Qed.

Lemma mean_img_Some imgs w img w' :
  mean_img imgs w = Some (img, w') → w' = w.
Proof.
  intros Hrun. unfold mean_img in Hrun. inv_run Hrun. by subst.
Qed.

End Operations.
(** ** Inversion of the script *)

Section ScriptFacts.
Context `{Library}.

Lemma script_inv ds w r w' :
  script ds w = Some (r, w') → executed ds w r w'.
Proof.
  intros Hrun. unfold script in Hrun. inv_run Hrun.
  repeat match goal with
  | E : Pipeline_predict _ _ ?w1 = Some (_, ?w2) |- _ =>
      assert_fails (constr_eq w1 w2);
      let Hw := fresh in
      pose proof E as Hw; apply Pipeline_predict_Some in Hw as [-> _]
  | E : SVC_coef_ _ ?w1 = Some (_, ?w2) |- _ =>
      assert_fails (constr_eq w1 w2);
      let Hw := fresh in
      pose proof E as Hw; apply SVC_coef_Some in Hw as [-> _]
  | E : SelectKBest_inverse_transform _ _ ?w1 = Some (_, ?w2) |- _ =>
      assert_fails (constr_eq w1 w2);
      let Hw := fresh in
      pose proof E as Hw;
      apply SelectKBest_inverse_transform_Some in Hw as [-> _]
  | E : masker_inverse_transform _ _ ?w1 = Some (_, ?w2) |- _ =>
      assert_fails (constr_eq w1 w2);
      let Hw := fresh in
      pose proof E as Hw;
      apply masker_inverse_transform_Some in Hw as [-> _]
  | E : mean_img _ ?w1 = Some (_, ?w2) |- _ =>
      assert_fails (constr_eq w1 w2);
      let Hw := fresh in
      pose proof E as Hw; apply mean_img_Some in Hw as ->
  | E : to_filename _ _ _ = Some _ |- _ =>
      unfold to_filename in E;
      change (is_nifti_name "haxby_face_vs_house.nii") with true in E;
      apply write_file_Some in E
  end.
  subst. simpl in *.
  rewrite E0 in E6. injection E6 as <-.
  rewrite <- ?app_assoc, ?length_app in *. simpl in *.
  destruct a14.
  eapply Executed with (wp := World _ _ _); simpl; try done; eauto.
  by rewrite <- !app_assoc.
Qed.
Lemma executed_outcome ds w r w' :
  executed ds w r w' → outcome ds w r w'.
Proof.
  intros [].
  apply masker_fit_transform_Some in Hft
    as (mi & ss & fw & st & old & mimg & img & msk & signals
        & Hm & Hmi & Hmsk & Himg & Hshape & Hsig & Hclean & ->).
  simpl in *.
  rewrite Hmasker, lookup_app_length in Hm. simpl in Hm.
  injection Hm as <- <- <- <- <-.
  rewrite Hmasker, insert_app_length in *. simpl in *.
  remember (heap w ++ [NiftiMasker_obj (mask ds) (field_chunks (v_labels r))
                         4 true (Some msk)]) as hc eqn:Hhc.
  pose proof Hfit as Hfit_call.
  apply Pipeline_fit_Some in Hfit
    as (na & an & ns & sv & k & oa & kn & os & m
        & Hp & Ha & Hs & Hfit & ->).
  simpl in *.
  rewrite Hpipe, lookup_app_plus in Hp. simpl in Hp.
  injection Hp as <- <- <- <-.
  rewrite Hsel, lookup_app_plus in Ha. simpl in Ha. injection Ha as <- <-.
  rewrite Hsvc, lookup_app_length in Hs. simpl in Hs. injection Hs as <- <-.
  rewrite Hsvc, Hsel in Hpred, Hscores.
  rewrite insert_app_r, insert_app_length in Hpred, Hscores. simpl in *.
  pose proof Hscores as Hscores_call.
  eapply cross_val_score_Some in Hscores
    as (folds & hs & Hfolds & Hcvs & ->); simpl.
  2: { rewrite Hpipe, lookup_app_plus. simpl. done. }
  2: { rewrite lookup_app_plus. simpl. done. }
  2: { rewrite lookup_app_length. simpl. done. }
  subst wp. simpl in *.
  apply Pipeline_predict_Some in Hpred
    as (_ & na & an & ns & sv & k & sc & kn & m' & Hp & Ha & Hs & Hpred).
  simpl in *.
  rewrite Hpipe, lookup_app_plus in Hp. simpl in Hp.
  injection Hp as <- <- <- <-.
  rewrite lookup_app_plus in Ha. simpl in Ha. injection Ha as <- <-.
  rewrite lookup_app_length in Hs. simpl in Hs. injection Hs as <- <-.
  apply SVC_coef_Some in Hcoef as (_ & m' & Hs & ->). simpl in Hs.
  rewrite Hsvc, <- app_assoc, lookup_app_length in Hs. simpl in Hs.
  injection Hs as <-.
  apply SelectKBest_inverse_transform_Some in Hinv
    as (_ & k & sc & Ha & Hinv).
  simpl in Ha.
  rewrite Hsel, <- app_assoc, lookup_app_plus in Ha. simpl in Ha.
  injection Ha as <- <-.
  apply masker_inverse_transform_Some in Hweight
    as (_ & mi & ss & fw & st & msk' & vs & Hm & Hvs & Hw).
  simpl in Hm.
  rewrite Hhc, <- !app_assoc, lookup_app_length in Hm.
  simpl in Hm. injection Hm as <- <- <- <- <-.
  assert (length hc = length (heap w) + 1) as Hlen.
  { rewrite Hhc, length_app. simpl. lia. }
  rewrite Hsvc, Hsel, insert_app_r, insert_app_length in Hfit_call.
  simpl in Hfit_call. rewrite <- Hsel, <- Hsvc in Hfit_call.
  rewrite <- Hsel, <- Hsvc in Hscores_call.
  eapply (Outcome ds w r w' func_filename target0 mimg img msk signals
            X0 vs m folds hs _ _ _ Hfunc Htarget Htable Hmi Hmsk Himg
            Hshape Hsig Hclean Hmask Hy HX Hsession Hn Hmasker _ _ _
            Hfit_call Hfit _ Hpred Hcv Hscores_call Hfolds Hcvs _ Hacc
            Hchance Hinv Hvs Hw _ _ _).
  Unshelve.
  all: try lia.
  - simpl. unfold fitted_objects. rewrite Hhc.
    by rewrite <- app_assoc.
  - done.
  - rewrite Hend. simpl. by rewrite Hsel, Hsvc.
  - by rewrite Hend.
  - rewrite Hend. simpl. by rewrite <- !app_assoc.
Qed.

Lemma script_outcome ds w r w' :
  script ds w = Some (r, w') → outcome ds w r w'.
Proof. intros Hrun. by apply executed_outcome, script_inv. Qed.

End ScriptFacts.

(** ** The condition filter *)

Section FilterFacts.

Lemma logical_or_Some a b m :
  np.logical_or a b = Some m → length a = length b ∧ m = zip_with orb a b.
Proof. unfold np.logical_or. case_decide; naive_solver. Qed.

Lemma equal_or_equal `{EqDecision A} (y : list A) (c1 c2 : A) :
  zip_with orb (np.equal y c1) (np.equal y c2)
  = map (λ x, bool_decide (x = c1 ∨ x = c2)) y.
Proof.
  induction y as [|x y IH]; simpl; [done|].
  by rewrite IH, bool_decide_or.
Qed.

Lemma compress_decide {A} (P : A → Prop) `{∀ x, Decision (P x)}
    (y : list A) :
  np.compress (map (λ x, bool_decide (P x)) y) y = filter P y.
Proof.
  induction y as [|x y IH]; simpl; [done|].
  rewrite filter_cons. destruct (decide (P x)) as [HP|HP].
  - rewrite bool_decide_eq_true_2 by done. by rewrite IH.
  - rewrite bool_decide_eq_false_2 by done. by rewrite IH.
Qed.

(** Line 30 and 31 on any label sequence. *)
Lemma condition_filter (y : list string) mask y' :
  np.logical_or (np.equal y "face"%string) (np.equal y "house"%string)
  = Some mask →
  np.getitem y mask = Some y' →
  mask = map (λ l, bool_decide (l = "face"%string ∨ l = "house"%string)) y ∧
  y' = filter (λ l, l = "face"%string ∨ l = "house"%string) y.
Proof.
  intros [_ ->]%logical_or_Some [_ ->]%getitem_Some.
  rewrite equal_or_equal. split; [done|]. apply compress_decide.
Qed.

(** With as many rows as the table has lines, the three filters
    succeed and keep the three sequences aligned. *)
Lemma condition_filter_total (t : list row) (X0 : list (list Qc)) :
  length X0 = length t →
  ∃ mask y s X,
    np.logical_or (np.equal (field_labels t) "face"%string)
                  (np.equal (field_labels t) "house"%string)
    = Some mask ∧
    np.getitem (field_labels t) mask = Some y ∧
    np.getitem X0 mask = Some X ∧
    np.getitem (field_chunks t) mask = Some s ∧
    length y = length s ∧ length s = length X.
Proof.
  intros HX.
  set (mask := map (λ l, bool_decide (l = "face"%string ∨ l = "house"%string))
                   (field_labels t)).
  assert (length mask = length t) as Hmask.
  { unfold mask, field_labels. by rewrite !length_map. }
  exists mask, (np.compress mask (field_labels t)),
    (np.compress mask (field_chunks t)), (np.compress mask X0).
  split.
  { unfold np.logical_or, np.equal. rewrite decide_True
      by (by rewrite !length_map).
    f_equal. apply equal_or_equal. }
  repeat split.
  - apply getitem_same_length. unfold field_labels.
    by rewrite Hmask, length_map.
  - apply getitem_same_length. congruence.
  - apply getitem_same_length. unfold field_chunks.
    by rewrite Hmask, length_map.
  - rewrite !compress_length;
      unfold field_labels, field_chunks; rewrite ?length_map; done.
  - rewrite !compress_length;
      unfold field_chunks; rewrite ?length_map; congruence.
Qed.

Lemma n_distinct_unique `{Countable A} (leb : A → A → bool) (l : list A) :
  np.size (np.unique leb l) = n_distinct l.
Proof.
  unfold np.size, n_distinct.
  rewrite <- (size_list_to_set (C := gset A) (np.unique leb l))
    by apply NoDup_unique.
  apply set_size_proper. intros x.
  by rewrite !elem_of_list_to_set, elem_of_unique.
Qed.

Lemma n_distinct_two `{Countable A} (l : list A) (a b : A) :
  a ≠ b → a ∈ l → b ∈ l → (∀ x, x ∈ l → x = a ∨ x = b) →
  n_distinct l = 2.
Proof.
  intros Hab Ha Hb Hl. unfold n_distinct.
  assert (list_to_set l ≡@{gset A} {[a]} ∪ {[b]}) as ->.
  { intros x. rewrite elem_of_list_to_set, elem_of_union,
      !elem_of_singleton. naive_solver. }
  rewrite size_union by set_solver. by rewrite !size_singleton.
Qed.

Lemma of_nat_nonzero (n : nat) :
  n ≠ 0 → Q2Qc (inject_Z (Z.of_nat n)) ≠ 0%Qc.
Proof.
  intros Hn Heq. apply Hn.
  change 0%Qc with (Q2Qc 0) in Heq. apply Q2Qc_eq_iff in Heq.
  unfold Qeq in Heq. simpl in Heq. lia.
Qed.

Lemma mean_Some (l : list Qc) (q : Qc) :
  np.mean l = Some q →
  l ≠ [] ∧ q = (np.sum l / Q2Qc (inject_Z (Z.of_nat (length l))))%Qc ∧
  (q * Q2Qc (inject_Z (Z.of_nat (length l))) = np.sum l)%Qc.
Proof.
  destruct l as [|x l]; [done|]. intros [= <-].
  split; [done|]. split; [done|].
  rewrite Qcmult_comm. apply Qcmult_div_r.
  by apply of_nat_nonzero.
Qed.

Lemma true_divide_Some (a : Qc) (n : nat) (q : Qc) :
  true_divide a n = Some q →
  n ≠ 0 ∧ q = (a / Q2Qc (inject_Z (Z.of_nat n)))%Qc.
Proof. unfold true_divide. case_decide; naive_solver. Qed.

End FilterFacts.

(** ** Properties of the script *)

Section Claims.
Context `{Library}.

(** C3: after the condition filter is applied, the filtered label
    sequence, the filtered session sequence and the filtered feature
    matrix have the same number of entries (rows): the number of
    true entries of the condition mask. *)
Theorem filtered_sequences_aligned ds w r w' :
  script ds w = Some (r, w') →
  length (v_y r) = length (v_session r) ∧
  length (v_session r) = length (v_X r) ∧
  length (v_X r) = np.count_nonzero (v_condition_mask r).
Proof.
  intros [] %script_outcome.
  apply getitem_Some in Oy as [Hly ->].
  apply getitem_Some in OX as [HlX ->].
  apply getitem_Some in Osession as [Hls ->].
  by rewrite !compress_length.
Qed.


(** C6: the chance level that the script prints is 1 divided by the
    number of distinct class values of the filtered label sequence;
    when both [face] and [house] are present it is one half. *)
Theorem chance_level_is_one_over_classes ds w r w' :
  script ds w = Some (r, w') →
  v_n_conditions r = n_distinct (v_y r) ∧
  n_distinct (v_y r) ≠ 0 ∧
  v_chance_level r
  = (1 / Q2Qc (inject_Z (Z.of_nat (n_distinct (v_y r)))))%Qc ∧
  Printed results_format
    [ANum (v_classification_accuracy r); ANum (v_chance_level r)] ∈ out w' ∧
  ("face"%string ∈ v_y r → "house"%string ∈ v_y r →
   v_chance_level r = Q2Qc (1 # 2)).
Proof.
  intros [] %script_outcome.
  rewrite n_distinct_unique in On.
  rewrite On in Ochance. apply true_divide_Some in Ochance as [Hn Hq].
  split; [done|]. split; [done|]. split; [done|]. split.
  - rewrite Oout. set_solver.
  - intros Hface Hhouse.
    destruct (condition_filter _ _ _ Ocm Oy) as [_ Hy].
    rewrite Hq, (n_distinct_two (v_y r) "face"%string "house"%string);
      [by apply Qc_is_canon | done | done | done |].
    intros l. rewrite Hy, list_elem_of_filter. tauto.
Qed.

(** C7: the classification accuracy that the script reports is the
    arithmetic mean of the scores of the folds returned by
    [cross_val_score]: their sum divided by their number. *)
Theorem accuracy_is_mean_of_fold_scores ds w r w' :
  script ds w = Some (r, w') →
  (∃ wg wi, cross_val_score (v_anova_svc r) (v_X r) (v_y r) None wg
            = Some (v_cv_scores r, wi)) ∧
  v_cv_scores r ≠ [] ∧
  v_classification_accuracy r
  = (np.sum (v_cv_scores r)
     / Q2Qc (inject_Z (Z.of_nat (length (v_cv_scores r)))))%Qc ∧
  (v_classification_accuracy r
   * Q2Qc (inject_Z (Z.of_nat (length (v_cv_scores r))))
   = np.sum (v_cv_scores r))%Qc ∧
  Printed results_format
    [ANum (v_classification_accuracy r); ANum (v_chance_level r)] ∈ out w'.
Proof.
  intros [] %script_outcome.
  apply mean_Some in Oacc as (Hne & Hacc & Hmul).
  split; [eauto|]. split; [done|]. split; [done|]. split; [done|].
  rewrite Oout. set_solver.
Qed.

(** C1: the script builds the splitter [LeaveOneLabelOut(session // 2)]
    but calls [cross_val_score] without it. The scores that are
    averaged are those of the default 3-fold scheme, a function of the
    feature matrix and of the labels alone: two runs with the same
    matrix and labels report the same accuracy, whatever their sessions
    and their splitters. *)
Theorem splitter_is_not_used ds w r w' :
  script ds w = Some (r, w') →
  v_cv r = LeaveOneLabelOut (np.floor_divide (v_session r) 2) ∧
  (∃ wg wi, cross_val_score (v_anova_svc r) (v_X r) (v_y r) None wg
            = Some (v_cv_scores r, wi)) ∧
  mapM (spec_fold_score 500 (v_X r) (v_y r))
       (map (λ i, np.equal (default_test_folds (v_y r)) i) [0; 1; 2])
  = Some (v_cv_scores r) ∧
  np.mean (v_cv_scores r) = Some (v_classification_accuracy r) ∧
  (∀ ds2 w2 r2 w2',
     script ds2 w2 = Some (r2, w2') →
     v_X r2 = v_X r → v_y r2 = v_y r →
     v_classification_accuracy r2 = v_classification_accuracy r).
Proof.
  intros [] %script_outcome.
  assert (∀ y folds, check_cv None y = Some folds →
            folds = map (λ i, np.equal (default_test_folds y) i) [0; 1; 2])
    as Hdefault.
  { intros y fs. unfold check_cv. case_decide; naive_solver. }
  split; [done|]. split; [eauto|].
  apply Hdefault in Ofolds as ->.
  split; [done|]. split; [done|].
  intros ds2 w2 r2 w2' [] %script_outcome HX Hy.
  apply Hdefault in Ofolds as ->.
  rewrite HX, Hy in Oscores0. rewrite Oscores in Oscores0.
  injection Oscores0 as Heq. rewrite <- Heq in Oacc0.
  rewrite Oacc in Oacc0. by injection Oacc0.
Qed.

(** C9: the masker is configured with the whole, unfiltered session
    sequence, and [fit_transform] turns every time point of the 4D
    volume into a row and cleans these rows with that sequence; the
    condition mask is applied to the result, and to the sessions,
    afterwards. *)
Theorem masker_sees_all_samples ds w r w' :
  script ds w = Some (r, w') →
  ∃ func_filename img msk signals X0,
    heap w' !! v_masker r
    = Some (NiftiMasker_obj (mask ds) (field_chunks (v_labels r)) 4 true
              (Some msk)) ∧
    length (field_chunks (v_labels r)) = length (v_labels r) ∧
    head (func ds) = Some func_filename ∧
    fs w !! func_filename = Some (NiftiFile img) ∧
    mapM (λ v, np.getitem (smooth 4 (shape img) v) msk.2) (vols img)
    = Some signals ∧
    length signals = length (vols img) ∧
    signal_clean (field_chunks (v_labels r)) true signals = Some X0 ∧
    v_X r = np.compress (v_condition_mask r) X0 ∧
    v_session r
    = np.compress (v_condition_mask r) (field_chunks (v_labels r)).
Proof.
  intros [] %script_outcome.
  exists func_filename, img, msk, signals, X0.
  apply getitem_Some in OX as [_ ->].
  apply getitem_Some in Osession as [_ ->].
  split.
  { rewrite Oheap, Oheap_cv, Oheap_fit, Omasker, <- app_assoc.
    by rewrite lookup_app_length. }
  split; [apply length_map|].
  repeat (split; [done|]).
  split; [|done].
  apply mapM_Some_1, Forall2_length in Osignals. done.
Qed.

(** C10: the weights that are mapped back to an image, plotted and
    saved are those of the single fit of the pipeline on the whole
    filtered dataset: [cross_val_score] leaves the selector and the
    machine of the pipeline as that fit left them. *)
Theorem weights_come_from_the_single_fit ds w r w' :
  script ds w = Some (r, w') →
  ∃ wf wg wi m msk vs,
    Pipeline_fit (v_anova_svc r) (v_X r) (v_y r) wf = Some ((), wg) ∧
    cross_val_score (v_anova_svc r) (v_X r) (v_y r) None wg
    = Some (v_cv_scores r, wi) ∧
    heap wg !! v_svc r = Some (SVC_obj "linear" (Some m)) ∧
    heap wg !! v_feature_selection r
    = Some (SelectKBest_obj 500 (Some (f_classif (v_X r) (v_y r)))) ∧
    heap wi !! v_svc r = heap wg !! v_svc r ∧
    heap wi !! v_feature_selection r = heap wg !! v_feature_selection r ∧
    heap w' = heap wi ∧
    spec_fit 500 (v_X r) (v_y r) = Some (f_classif (v_X r) (v_y r), m) ∧
    mapM (inverse_row (support_of 500 (f_classif (v_X r) (v_y r))))
         (svm_coef m)
    = Some (v_coef r) ∧
    mapM (unmask_row msk.2) (v_coef r) = Some vs ∧
    v_weight_img r = Nifti msk.1 vs ∧
    PlotStatMap (v_weight_img r) (v_mean_img r) "SVM weights" ∈ out w' ∧
    fs w' !! "haxby_face_vs_house.nii"%string
    = Some (NiftiFile (v_weight_img r)).
Proof.
  intros [] %script_outcome.
  exists wf, wg, wi, m, msk, vs.
  assert (heap wg !! v_svc r = Some (SVC_obj "linear" (Some m))) as Hs.
  { by rewrite Oheap_fit, Osvc, lookup_app_plus. }
  assert (heap wg !! v_feature_selection r
          = Some (SelectKBest_obj 500 (Some (f_classif (v_X r) (v_y r)))))
    as Ha.
  { by rewrite Oheap_fit, Osel, lookup_app_plus. }
  repeat (split; [done|]).
  split; [rewrite Oheap_cv, Hs; by apply lookup_app_l_Some|].
  split; [rewrite Oheap_cv, Ha; by apply lookup_app_l_Some|].
  repeat (split; [done|]).
  split; [rewrite Oout; set_solver|].
  rewrite Ofs. apply lookup_insert_eq.
Qed.

End Claims.

(** ** The selection of the best features *)

Section SelectionFacts.
Context {A : Type} (le : A → A → bool).

Lemma merge_nil_l (l : list A) : merge le [] l = l.
Proof. by destruct l. Qed.

Lemma merge_perm (l1 l2 : list A) : merge le l1 l2 ≡ₚ l1 ++ l2.
Proof.
  revert l2. induction l1 as [|a l1 IH1]; intros l2.
  - by rewrite merge_nil_l.
  - induction l2 as [|b l2 IH2]; simpl.
    + by rewrite app_nil_r.
    + destruct (le a b).
      * by rewrite IH1.
      * rewrite IH2. apply (Permutation_middle (a :: l1) l2 b).
Qed.

Lemma merge_pairs_perm (runs : list (list A)) :
  concat (merge_pairs le runs) ≡ₚ concat runs ∧
  ∀ r, concat (merge_pairs le (r :: runs)) ≡ₚ concat (r :: runs).
Proof.
  induction runs as [|a runs [IH1 IH2]]; simpl.
  - done.
  - split; [apply IH2|].
    intros r. simpl in *. by rewrite merge_perm, IH1, app_assoc.
Qed.

Lemma merge_fold_perm (runs : list (list A)) :
  foldr (merge le) [] runs ≡ₚ concat runs.
Proof.
  induction runs as [|r runs IH]; simpl; [done|].
  by rewrite merge_perm, IH.
Qed.

Lemma merge_passes_perm (n : nat) : ∀ runs : list (list A),
  merge_passes le n runs ≡ₚ concat runs.
Proof.
  induction n as [|n IH]; intros [|r [|r' runs]]; simpl;
    try done; try by rewrite app_nil_r.
  - by rewrite !merge_perm, merge_fold_perm.
  - rewrite IH. simpl.
    rewrite merge_perm, (proj1 (merge_pairs_perm runs)).
    by rewrite app_assoc.
Qed.

Lemma merge_sort_perm (l : list A) : merge_sort le l ≡ₚ l.
Proof.
  unfold merge_sort. rewrite merge_passes_perm.
  induction l as [|x l IH]; simpl; [done|]. by rewrite IH.
Qed.

End SelectionFacts.

Section SupportFacts.

Lemma argsort_perm (scores : list Qc) :
  argsort scores ≡ₚ seq 0 (length scores).
Proof.
  unfold argsort. rewrite merge_sort_perm.
  by rewrite snd_zip by (rewrite length_seq; lia).
Qed.

Lemma count_insert_true (m : list bool) (i : nat) :
  m !! i = Some false →
  np.count_nonzero (<[i := true]> m) = S (np.count_nonzero m).
Proof.
  revert i. induction m as [|b m IH]; intros [|i] Hi; simpl in *; try done.
  - by injection Hi as ->.
  - rewrite (IH i Hi). lia.
Qed.

Lemma mask_of_indices_length n idx : length (mask_of_indices n idx) = n.
Proof.
  unfold mask_of_indices. induction idx as [|i idx IH]; simpl.
  - apply length_replicate.
  - by rewrite length_insert.
Qed.

Lemma mask_of_indices_lookup n idx i :
  i < n → mask_of_indices n idx !! i = Some (bool_decide (i ∈ idx)).
Proof.
  intros Hi. unfold mask_of_indices.
  induction idx as [|j idx IH]; simpl.
  - by rewrite lookup_replicate_2.
  - destruct (decide (j = i)) as [->|Hne].
    + rewrite list_lookup_insert_eq.
      * by rewrite bool_decide_eq_true_2 by left.
      * fold (mask_of_indices n idx). by rewrite mask_of_indices_length.
    + rewrite list_lookup_insert_ne, IH by done. f_equal.
      apply bool_decide_ext. rewrite elem_of_cons. naive_solver.
Qed.

Lemma count_mask_of_indices n idx :
  NoDup idx → (∀ i, i ∈ idx → i < n) →
  np.count_nonzero (mask_of_indices n idx) = length idx.
Proof.
  induction 1 as [|i idx Hi Hidx IH]; intros Hlt.
  - unfold mask_of_indices. simpl. clear Hlt.
    induction n as [|n IHn]; simpl; [done|]. by rewrite IHn.
  - change (mask_of_indices n (i :: idx))
      with (<[i := true]> (mask_of_indices n idx)).
    rewrite count_insert_true.
    + simpl. f_equal. apply IH. intros j Hj. apply Hlt. by right.
    + rewrite mask_of_indices_lookup by (apply Hlt; left).
      by rewrite bool_decide_eq_false_2.
Qed.

(** The support has the size of the scores and keeps exactly [k]
    features, those that a stable sort of the scores puts last. *)
Lemma support_of_length k scores : length (support_of k scores) = length scores.
Proof. apply mask_of_indices_length. Qed.

Lemma support_of_count k scores :
  k ≤ length scores → np.count_nonzero (support_of k scores) = k.
Proof.
  intros Hk. unfold support_of.
  pose proof (argsort_perm scores) as Hperm.
  assert (length (argsort scores) = length scores) as Hlen.
  { by rewrite Hperm, length_seq. }
  rewrite count_mask_of_indices.
  - rewrite length_drop. lia.
  - eapply sublist_NoDup; [|apply sublist_drop].
    rewrite Hperm. apply NoDup_seq.
  - intros i Hi. apply subseteq_drop in Hi.
    rewrite Hperm in Hi. apply elem_of_seq in Hi. lia.
Qed.

End SupportFacts.

(** ** The inverse transforms *)

Section InverseFacts.
Context `{Library}.

Lemma scatter_length mask v : length (scatter mask v) = length mask.
Proof.
  revert v. induction mask as [|[] mask IH]; intros v; simpl; [done|..].
  - destruct v; simpl; by rewrite IH.
  - by rewrite IH.
Qed.

Lemma scatter_lookup_false mask v i :
  mask !! i = Some false → scatter mask v !! i = Some 0%Qc.
Proof.
  revert v i. induction mask as [|b mask IH]; intros v i Hi; [done|].
  destruct i as [|i]; simpl in *.
  - injection Hi as ->. done.
  - destruct b; [destruct v|]; simpl; by apply IH.
Qed.

Lemma rank_cons b mask i :
  rank (b :: mask) (S i) = (if b then 1 else 0) + rank mask i.
Proof. done. Qed.

Lemma scatter_lookup_true mask v i :
  mask !! i = Some true →
  scatter mask v !! i = Some (default 0%Qc (v !! rank mask i)).
Proof.
  revert v i. induction mask as [|b mask IH]; intros v i Hi; [done|].
  destruct i as [|i]; simpl in Hi.
  - injection Hi as ->. by destruct v.
  - rewrite rank_cons. destruct b; [destruct v as [|x v]|]; simpl.
    + rewrite (IH [] i Hi). by rewrite !lookup_nil.
    + by rewrite (IH v i Hi).
    + by rewrite (IH v i Hi).
Qed.

(** A row mapped back through the selector and then through the masker:
    a volume of the size of the mask, zero outside the mask and at the
    voxels of the mask whose feature is not selected. *)
Lemma unmask_inverse_row msk support row sel vol :
  inverse_row support row = Some sel →
  unmask_row msk sel = Some vol →
  length vol = length msk ∧
  np.count_nonzero msk = length support ∧
  (∀ i, msk !! i = Some false → vol !! i = Some 0%Qc) ∧
  (∀ i, msk !! i = Some true → support !! rank msk i = Some false →
        vol !! i = Some 0%Qc) ∧
  (∀ i, msk !! i = Some true → support !! rank msk i = Some true →
        vol !! i
        = Some (default 0%Qc (row !! rank support (rank msk i)))).
Proof.
  unfold inverse_row, unmask_row. intros Hsel.
  case_decide as Hc1; [|done]. injection Hsel as <-. intros Hvol.
  case_decide as Hc2; [|done]. injection Hvol as <-.
  rewrite scatter_length in Hc2.
  split; [apply scatter_length|]. split; [done|].
  split; [intros i; apply scatter_lookup_false|].
  split.
  - intros i Hi Hs. rewrite (scatter_lookup_true _ _ _ Hi).
    by rewrite (scatter_lookup_false _ _ _ Hs).
  - intros i Hi Hs. rewrite (scatter_lookup_true _ _ _ Hi).
    by rewrite (scatter_lookup_true _ _ _ Hs).
Qed.

Lemma load_mask_Some img shp msk :
  load_mask img = Some (shp, msk) →
  shp = shape img ∧ length msk = n_voxels (shape img) ∧
  ∃ v, vols img = [v] ∧ msk = map (λ x, bool_decide (x ≠ 0%Qc)) v.
Proof.
  unfold load_mask. destruct (vols img) as [|v [|]]; try done.
  case_decide as Hl; [|done]. intros [= <- <-].
  rewrite length_map. eauto.
Qed.

Lemma f_classif_length X y : length (f_classif X y) = n_features X.
Proof. unfold f_classif. by rewrite length_map, length_seq. Qed.

Lemma spec_fit_Some k X y scores m :
  spec_fit k X y = Some (scores, m) →
  scores = f_classif X y ∧ k ≤ length scores ∧
  ∃ Xt, spec_transform k scores X = Some Xt ∧ svm_fit Xt y = Some m.
Proof.
  unfold spec_fit. case_decide as Hc; [|done].
  destruct (spec_transform k (f_classif X y) X) as [Xt|] eqn:Ht; [|done].
  simpl. destruct (svm_fit Xt y) as [m'|] eqn:Hm; [|done].
  intros [= <- <-]. rewrite f_classif_length. naive_solver.
Qed.

(** C5: the weights of the fitted machine, mapped back through the
    selector and then through the masker, give an image of the spatial
    shape of the mask, one volume per row of weights. The selector keeps
    500 features; every volume is zero at every voxel outside the mask
    and at every voxel of the mask whose feature is not among those
    kept, and carries the weights at the other voxels. *)
Theorem weight_image_is_zero_off_the_selection ds w r w' :
  script ds w = Some (r, w') →
  ∃ mimg msk m support,
    fs w !! mask ds = Some (NiftiFile mimg) ∧
    load_mask mimg = Some (shape mimg, msk) ∧
    spec_fit 500 (v_X r) (v_y r) = Some (f_classif (v_X r) (v_y r), m) ∧
    support = support_of 500 (f_classif (v_X r) (v_y r)) ∧
    np.count_nonzero support = 500 ∧
    shape (v_weight_img r) = shape mimg ∧
    length (vols (v_weight_img r)) = length (svm_coef m) ∧
    ∀ j vol, vols (v_weight_img r) !! j = Some vol →
      length vol = n_voxels (shape mimg) ∧
      length support = np.count_nonzero msk ∧
      (∀ i, msk !! i = Some false ∨
            (msk !! i = Some true ∧ support !! rank msk i = Some false) →
            vol !! i = Some 0%Qc) ∧
      ∃ row, svm_coef m !! j = Some row ∧
        ∀ i, msk !! i = Some true → support !! rank msk i = Some true →
             vol !! i = Some (default 0%Qc (row !! rank support (rank msk i))).
Proof.
  intros [] %script_outcome.
  destruct msk as [shp msk].
  destruct (load_mask_Some _ _ _ Omsk) as (-> & Hlen & _).
  destruct (spec_fit_Some _ _ _ _ _ Ofit) as (_ & Hk & _).
  exists mimg, msk, m, (support_of 500 (f_classif (v_X r) (v_y r))).
  simpl in *.
  repeat (split; [done|]).
  split; [by apply support_of_count|].
  rewrite Oweight_img. simpl. split; [done|].
  apply mapM_Some_1 in Ocoef, Oweight.
  split.
  { apply Forall2_length in Ocoef, Oweight. congruence. }
  intros j vol Hvol.
  destruct (Forall2_lookup_r _ _ _ _ _ Oweight Hvol) as (sel & Hsel & Hun).
  destruct (Forall2_lookup_r _ _ _ _ _ Ocoef Hsel) as (row & Hrow & Hinv).
  destruct (unmask_inverse_row _ _ _ _ _ Hinv Hun)
    as (Hl & Hcount & Hout & Hoff & Hon).
  split; [congruence|]. split; [done|]. split.
  - intros i [Hi|[Hi Hs]]; eauto.
  - exists row. eauto.
Qed.

End InverseFacts.

(** ** The output file and the folds *)

Section OutputFacts.
Context `{Library}.

(** C8 (amended): the weight image is written as a Nifti file under the
    name [haxby_face_vs_house.nii], a constant of the script: every
    run, whatever its inputs, saves its image under this name. *)
Theorem output_file_has_a_fixed_name ds w r w' :
  script ds w = Some (r, w') →
  is_nifti_name "haxby_face_vs_house.nii" = true ∧
  fs w' !! "haxby_face_vs_house.nii"%string
  = Some (NiftiFile (v_weight_img r)).
Proof.
  intros [] %script_outcome. split; [done|]. rewrite Ofs.
  apply lookup_insert_eq.
Qed.

(** The only call of the script that saves an image is the
    [to_filename] of line 121. (The cache of the masker is not among
    the files of the model, see [NiftiMasker].) *)
Lemma script_writes_one_file ds w r w' :
  script ds w = Some (r, w') →
  fs w' = <["haxby_face_vs_house.nii"%string :=
             NiftiFile (v_weight_img r)]> (fs w).
Proof. by intros [] %script_outcome. Qed.

(** Every run reports three scores, whatever the sessions. *)
Lemma script_scores_length ds w r w' :
  script ds w = Some (r, w') → length (v_cv_scores r) = 3.
Proof.
  intros [] %script_outcome.
  apply mapM_Some_1, Forall2_length in Oscores. rewrite <- Oscores.
  unfold check_cv in Ofolds. case_decide; [|done].
  injection Ofolds as <-. done.
Qed.

(** Given a [LeaveOneLabelOut], the cross-validator returns one score
    for each distinct label, each computed as the contract says. *)
Lemma cross_val_score_by_label p X y labels w scores w'
    na anova ns svc k old_a kernel old_s :
  cross_val_score p X y (Some (LeaveOneLabelOut labels)) w
  = Some (scores, w') →
  heap w !! p = Some (Pipeline_obj ((na, anova), (ns, svc))) →
  heap w !! anova = Some (SelectKBest_obj k old_a) →
  heap w !! svc = Some (SVC_obj kernel old_s) →
  length scores = n_distinct labels ∧
  mapM (spec_fold_score k X y)
       (map (λ u, np.equal labels u) (np.unique int_leb labels))
  = Some scores.
Proof.
  intros Hrun Hp Ha Hs.
  destruct (cross_val_score_Some _ _ _ _ _ _ _ Hrun _ _ _ _ _ _ _ _ Hp Ha Hs)
    as (folds & hs & Hfolds & Hscores & _).
  injection Hfolds as <-. unfold lolo_test_masks in Hscores. simpl in Hscores.
  split; [|done].
  apply mapM_Some_1, Forall2_length in Hscores.
  rewrite <- Hscores, length_map. apply n_distinct_unique.
Qed.

End OutputFacts.

(** C8, as stated: were the name of the output file chosen by the
    caller, some input would make the script write its image under
    [weights.nii]; no input does. *)
Lemma output_name_is_not_chosen_by_the_caller :
  ¬ (∀ name : string, is_nifti_name name = true →
       ∃ (L : Library) ds w r w',
         script ds w = Some (r, w') ∧
         fs w !! name = None ∧
         fs w' !! name = Some (NiftiFile (v_weight_img r))).
Proof.
  intros Hclaim.
  destruct (Hclaim "weights.nii"%string eq_refl)
    as (L & ds & w & r & w' & Hrun & Hbefore & Hafter).
  rewrite (script_writes_one_file _ _ _ _ Hrun) in Hafter.
  rewrite lookup_insert_ne in Hafter by done. congruence.
Qed.

(** C2: on the scenario of the specification the script reports three
    scores, those of the default scheme, where the sessions have two
    distinct values and the splitter that the script builds on
    [session // 2] has one group. *)
Theorem scenario_scores_are_not_by_session :
  Scenario.observed = Some ([0; 0; 1; 1]%Z, 3, 1, 2).
Proof. vm_compute. reflexivity. Qed.

(** ** The properties on the small dataset *)

#[local] Existing Instance Toy.library.

(** A run that is checked to succeed has a result. *)
Lemma run_of_check {A} (o : option A) :
  match o with Some _ => true | None => false end = true →
  ∃ x, o = Some x.
Proof. destruct o; [eauto | discriminate]. Defined.

Lemma filtered_sequences_aligned_witness :
  ∃ r w', Toy.run = Some (r, w') ∧
    length (v_y r) = length (v_session r) ∧
    length (v_session r) = length (v_X r) ∧
    length (v_X r) = np.count_nonzero (v_condition_mask r).
Proof.
  destruct (run_of_check Toy.run) as [[r w'] Hrun];
    [vm_compute; reflexivity|].
  exists r, w'. split; [exact Hrun|].
  exact (filtered_sequences_aligned _ _ _ _ Hrun).
Defined.


Lemma chance_level_is_one_over_classes_witness :
  ∃ r w', Toy.run = Some (r, w') ∧
    v_n_conditions r = n_distinct (v_y r) ∧
    n_distinct (v_y r) ≠ 0 ∧
    v_chance_level r
    = (1 / Q2Qc (inject_Z (Z.of_nat (n_distinct (v_y r)))))%Qc ∧
    Printed results_format
      [ANum (v_classification_accuracy r); ANum (v_chance_level r)]
      ∈ out w' ∧
    ("face"%string ∈ v_y r → "house"%string ∈ v_y r →
     v_chance_level r = Q2Qc (1 # 2)).
Proof.
  destruct (run_of_check Toy.run) as [[r w'] Hrun];
    [vm_compute; reflexivity|].
  exists r, w'. split; [exact Hrun|].
  exact (chance_level_is_one_over_classes _ _ _ _ Hrun).
Defined.

Lemma accuracy_is_mean_of_fold_scores_witness :
  ∃ r w', Toy.run = Some (r, w') ∧
    (∃ wg wi, cross_val_score (v_anova_svc r) (v_X r) (v_y r) None wg
              = Some (v_cv_scores r, wi)) ∧
    v_cv_scores r ≠ [] ∧
    v_classification_accuracy r
    = (np.sum (v_cv_scores r)
       / Q2Qc (inject_Z (Z.of_nat (length (v_cv_scores r)))))%Qc ∧
    (v_classification_accuracy r
     * Q2Qc (inject_Z (Z.of_nat (length (v_cv_scores r))))
     = np.sum (v_cv_scores r))%Qc ∧
    Printed results_format
      [ANum (v_classification_accuracy r); ANum (v_chance_level r)]
      ∈ out w'.
Proof.
  destruct (run_of_check Toy.run) as [[r w'] Hrun];
    [vm_compute; reflexivity|].
  exists r, w'. split; [exact Hrun|].
  exact (accuracy_is_mean_of_fold_scores _ _ _ _ Hrun).
Defined.

Lemma splitter_is_not_used_witness :
  ∃ r w', Toy.run = Some (r, w') ∧
    v_cv r = LeaveOneLabelOut (np.floor_divide (v_session r) 2) ∧
    (∃ wg wi, cross_val_score (v_anova_svc r) (v_X r) (v_y r) None wg
              = Some (v_cv_scores r, wi)) ∧
    mapM (spec_fold_score 500 (v_X r) (v_y r))
         (map (λ i, np.equal (default_test_folds (v_y r)) i) [0; 1; 2])
    = Some (v_cv_scores r) ∧
    np.mean (v_cv_scores r) = Some (v_classification_accuracy r) ∧
    (∀ ds2 w2 r2 w2',
       script ds2 w2 = Some (r2, w2') →
       v_X r2 = v_X r → v_y r2 = v_y r →
       v_classification_accuracy r2 = v_classification_accuracy r).
Proof.
  destruct (run_of_check Toy.run) as [[r w'] Hrun];
    [vm_compute; reflexivity|].
  exists r, w'. split; [exact Hrun|].
  exact (splitter_is_not_used _ _ _ _ Hrun).
Defined.

Lemma masker_sees_all_samples_witness :
  ∃ r w', Toy.run = Some (r, w') ∧
    ∃ func_filename img msk signals X0,
      heap w' !! v_masker r
      = Some (NiftiMasker_obj (mask Toy.haxby_dataset)
                (field_chunks (v_labels r)) 4 true (Some msk)) ∧
      length (field_chunks (v_labels r)) = length (v_labels r) ∧
      head (func Toy.haxby_dataset) = Some func_filename ∧
      fs Toy.world0 !! func_filename = Some (NiftiFile img) ∧
      mapM (λ v, np.getitem (smooth 4 (shape img) v) msk.2) (vols img)
      = Some signals ∧
      length signals = length (vols img) ∧
      signal_clean (field_chunks (v_labels r)) true signals = Some X0 ∧
      v_X r = np.compress (v_condition_mask r) X0 ∧
      v_session r
      = np.compress (v_condition_mask r) (field_chunks (v_labels r)).
Proof.
  destruct (run_of_check Toy.run) as [[r w'] Hrun];
    [vm_compute; reflexivity|].
  exists r, w'. split; [exact Hrun|].
  exact (masker_sees_all_samples _ _ _ _ Hrun).
Defined.

Lemma weights_come_from_the_single_fit_witness :
  ∃ r w', Toy.run = Some (r, w') ∧
    ∃ wf wg wi m msk vs,
      Pipeline_fit (v_anova_svc r) (v_X r) (v_y r) wf = Some ((), wg) ∧
      cross_val_score (v_anova_svc r) (v_X r) (v_y r) None wg
      = Some (v_cv_scores r, wi) ∧
      heap wg !! v_svc r = Some (SVC_obj "linear" (Some m)) ∧
      heap wg !! v_feature_selection r
      = Some (SelectKBest_obj 500 (Some (f_classif (v_X r) (v_y r)))) ∧
      heap wi !! v_svc r = heap wg !! v_svc r ∧
      heap wi !! v_feature_selection r = heap wg !! v_feature_selection r ∧
      heap w' = heap wi ∧
      spec_fit 500 (v_X r) (v_y r) = Some (f_classif (v_X r) (v_y r), m) ∧
      mapM (inverse_row (support_of 500 (f_classif (v_X r) (v_y r))))
           (svm_coef m)
      = Some (v_coef r) ∧
      mapM (unmask_row msk.2) (v_coef r) = Some vs ∧
      v_weight_img r = Nifti msk.1 vs ∧
      PlotStatMap (v_weight_img r) (v_mean_img r) "SVM weights" ∈ out w' ∧
      fs w' !! "haxby_face_vs_house.nii"%string
      = Some (NiftiFile (v_weight_img r)).
Proof.
  destruct (run_of_check Toy.run) as [[r w'] Hrun];
    [vm_compute; reflexivity|].
  exists r, w'. split; [exact Hrun|].
  exact (weights_come_from_the_single_fit _ _ _ _ Hrun).
Defined.

Lemma weight_image_is_zero_off_the_selection_witness :
  ∃ r w', Toy.run = Some (r, w') ∧
    ∃ mimg msk m support,
      fs Toy.world0 !! mask Toy.haxby_dataset = Some (NiftiFile mimg) ∧
      load_mask mimg = Some (shape mimg, msk) ∧
      spec_fit 500 (v_X r) (v_y r) = Some (f_classif (v_X r) (v_y r), m) ∧
      support = support_of 500 (f_classif (v_X r) (v_y r)) ∧
      np.count_nonzero support = 500 ∧
      shape (v_weight_img r) = shape mimg ∧
      length (vols (v_weight_img r)) = length (svm_coef m) ∧
      ∀ j vol, vols (v_weight_img r) !! j = Some vol →
        length vol = n_voxels (shape mimg) ∧
        length support = np.count_nonzero msk ∧
        (∀ i, msk !! i = Some false ∨
              (msk !! i = Some true ∧ support !! rank msk i = Some false) →
              vol !! i = Some 0%Qc) ∧
        ∃ row, svm_coef m !! j = Some row ∧
          ∀ i, msk !! i = Some true → support !! rank msk i = Some true →
               vol !! i
               = Some (default 0%Qc (row !! rank support (rank msk i))).
Proof.
  destruct (run_of_check Toy.run) as [[r w'] Hrun];
    [vm_compute; reflexivity|].
  exists r, w'. split; [exact Hrun|].
  exact (weight_image_is_zero_off_the_selection _ _ _ _ Hrun).
Defined.

Lemma output_file_has_a_fixed_name_witness :
  ∃ r w', Toy.run = Some (r, w') ∧
    is_nifti_name "haxby_face_vs_house.nii" = true ∧
    fs w' !! "haxby_face_vs_house.nii"%string
    = Some (NiftiFile (v_weight_img r)).
Proof.
  destruct (run_of_check Toy.run) as [[r w'] Hrun];
    [vm_compute; reflexivity|].
  exists r, w'. split; [exact Hrun|].
  exact (output_file_has_a_fixed_name _ _ _ _ Hrun).
Defined.

(** ** Further properties of the script *)

Section Alignment.
Context `{Library}.





End Alignment.

Section Conditions.
Context `{Library}.

Lemma n_distinct_le_two `{Countable A} (l : list A) (a b : A) :
  (∀ x, x ∈ l → x = a ∨ x = b) → n_distinct l ≤ 2.
Proof.
  intros Hl. unfold n_distinct.
  transitivity (size ({[a]} ∪ {[b]} : gset A)).
  - apply subseteq_size. intros x.
    rewrite elem_of_list_to_set, elem_of_union, !elem_of_singleton. apply Hl.
  - destruct (decide (a = b)) as [->|Hne].
    + rewrite union_idemp_L, size_singleton. lia.
    + rewrite size_union by set_solver. by rewrite !size_singleton.
Qed.

(** X2: line 34 after the filter of line 31: there are one or two conditions
    in a run, never more, so that the chance level that is printed is
    one or one half. *)
Theorem at_most_two_conditions ds w r w' :
  script ds w = Some (r, w') →
  (v_n_conditions r = 1 ∨ v_n_conditions r = 2) ∧
  (v_chance_level r = 1%Qc ∨ v_chance_level r = Q2Qc (1 # 2)).
Proof.
  intros [] %script_outcome.
  destruct (condition_filter _ _ _ Ocm Oy) as [_ Hy].
  rewrite n_distinct_unique in On.
  assert (n_distinct (v_y r) ≤ 2) as Hle.
  { apply (n_distinct_le_two _ "face"%string "house"%string).
    intros l. rewrite Hy, list_elem_of_filter. tauto. }
  rewrite On in Ochance. apply true_divide_Some in Ochance as [Hn ->].
  rewrite On.
  destruct (n_distinct (v_y r)) as [|[|[|n]]]; try done; try lia.
  - split; [by left|]. left. by apply Qc_is_canon.
  - split; [by right|]. right. by apply Qc_is_canon.
Qed.

(** X3: lines 18-20, 96-97, 118 and 124: a run prints the two paths, then
    the accuracy and the chance level, then plots and shows, in this
    order and nothing else; the image that is plotted is the one that
    is saved. *)
Theorem script_output ds w r w' :
  script ds w = Some (r, w') →
  ∃ func_filename,
    head (func ds) = Some func_filename ∧
    out w' = out w ++
      [Printed "Mask nifti image (3D) is located at: %s" [AStr (mask ds)];
       Printed "Functional nifti image (4D) is located at: %s"
         [AStr func_filename];
       Printed "Classification accuracy: %.4f / Chance level: %f"
         [ANum (v_classification_accuracy r); ANum (v_chance_level r)];
       PlotStatMap (v_weight_img r) (v_mean_img r) "SVM weights";
       Show] ∧
    fs w' !! "haxby_face_vs_house.nii"%string
    = Some (NiftiFile (v_weight_img r)).
Proof.
  intros [] %script_outcome. exists func_filename.
  split; [done|]. split; [done|]. rewrite Ofs. apply lookup_insert_eq.
Qed.

(** X4: lines 44, 59, 65 and 71: the script leaves the objects that existed
    before as they were and creates its own after them; the pipeline
    refers to the very objects bound to [feature_selection] and [svc],
    which the fit of line 76 has fitted in place. *)
Theorem script_objects ds w r w' :
  script ds w = Some (r, w') →
  ∃ msk m hs,
    heap w' = heap w ++
      [NiftiMasker_obj (mask ds) (field_chunks (v_labels r)) 4 true
         (Some msk);
       SVC_obj "linear" (Some m);
       SelectKBest_obj 500 (Some (f_classif (v_X r) (v_y r)));
       Pipeline_obj (("anova"%string, v_feature_selection r),
                     ("svc"%string, v_svc r))] ++ hs ∧
    v_masker r = length (heap w) ∧
    v_svc r = length (heap w) + 1 ∧
    v_feature_selection r = length (heap w) + 2 ∧
    v_anova_svc r = length (heap w) + 3 ∧
    (∀ l o, heap w !! l = Some o → heap w' !! l = Some o).
Proof.
  intros [] %script_outcome. exists msk, m, hs.
  assert (heap w' = heap w ++ fitted_objects ds r msk m ++ hs) as Hheap.
  { by rewrite Oheap, Oheap_cv, Oheap_fit, <- app_assoc. }
  repeat (split; [done|]).
  intros l o Hl. rewrite Hheap. by apply lookup_app_l_Some.
Qed.

End Conditions.

Section Proportions.
Context `{Library}.

Lemma of_nat_S (n : nat) :
  Q2Qc (inject_Z (Z.of_nat (S n)))
  = (Q2Qc (inject_Z (Z.of_nat n)) + 1)%Qc.
Proof.
  apply Qc_is_canon. unfold Qcplus, Q2Qc. simpl this.
  rewrite !Qred_correct. unfold Qeq, Qplus, inject_Z. simpl Qnum.
  simpl Qden. rewrite Nat2Z.inj_succ. change (Z.pos (1 * 1)) with 1%Z. lia.
Qed.

Lemma of_nat_nonneg (n : nat) : (0 ≤ Q2Qc (inject_Z (Z.of_nat n)))%Qc.
Proof.
  change (0 <= Qred (inject_Z (Z.of_nat n)))%Q. rewrite Qred_correct.
  unfold Qle, inject_Z. simpl. lia.
Qed.

Lemma sum_bounds (l : list Qc) :
  Forall (λ x, (0 ≤ x)%Qc ∧ (x ≤ 1)%Qc) l →
  (0 ≤ np.sum l)%Qc ∧ (np.sum l ≤ Q2Qc (inject_Z (Z.of_nat (length l))))%Qc.
Proof.
  induction 1 as [|x l [Hx0 Hx1] Hl [IH0 IH1]].
  - split; apply Qcle_refl.
  - change (np.sum (x :: l)) with (x + np.sum l)%Qc.
    change (length (x :: l)) with (S (length l)). rewrite of_nat_S. split.
    + change 0%Qc with (0 + 0)%Qc. by apply Qcplus_le_compat.
    + rewrite Qcplus_comm. by apply Qcplus_le_compat.
Qed.

Lemma mean_bounds (l : list Qc) (q : Qc) :
  Forall (λ x, (0 ≤ x)%Qc ∧ (x ≤ 1)%Qc) l →
  np.mean l = Some q → (0 ≤ q)%Qc ∧ (q ≤ 1)%Qc.
Proof.
  intros Hl (Hne & _ & Hmul) %mean_Some.
  destruct (sum_bounds l Hl) as [H0 H1].
  assert (0 < Q2Qc (inject_Z (Z.of_nat (length l))))%Qc as Hpos.
  { destruct (Qcle_lt_or_eq _ _ (of_nat_nonneg (length l))) as [|Heq];
      [done|].
    exfalso. apply (of_nat_nonzero (length l)); [|done].
    by destruct l. }
  split.
  - apply (Qcmult_lt_0_le_reg_r _ _ _ Hpos). by rewrite Qcmult_0_l, Hmul.
  - apply (Qcmult_lt_0_le_reg_r _ _ _ Hpos). by rewrite Qcmult_1_l, Hmul.
Qed.

Lemma accuracy_score_bounds y_true y_pred q :
  accuracy_score y_true y_pred = Some q → (0 ≤ q)%Qc ∧ (q ≤ 1)%Qc.
Proof.
  unfold accuracy_score. case_decide; [|done]. apply mean_bounds.
  clear. revert y_pred.
  induction y_true as [|a y IH]; intros [|b yp]; simpl; try constructor.
  - case_decide; split; done.
  - apply IH.
Qed.

Lemma spec_fold_score_bounds k X y test q :
  spec_fold_score k X y test = Some q → (0 ≤ q)%Qc ∧ (q ≤ 1)%Qc.
Proof.
  unfold spec_fold_score. intros Hq. simplify_option_eq.
  by eapply accuracy_score_bounds.
Qed.

(** X5: lines 90 and 93: a run computes three scores, each a proportion of
    right predictions between 0 and 1, and so is the accuracy that is
    reported. *)
Theorem accuracy_is_a_proportion ds w r w' :
  script ds w = Some (r, w') →
  length (v_cv_scores r) = 3 ∧
  Forall (λ s, (0 ≤ s)%Qc ∧ (s ≤ 1)%Qc) (v_cv_scores r) ∧
  (0 ≤ v_classification_accuracy r)%Qc ∧
  (v_classification_accuracy r ≤ 1)%Qc.
Proof.
  intros Hrun. split; [by eapply script_scores_length|].
  destruct (script_outcome _ _ _ _ Hrun).
  assert (Forall (λ s, (0 ≤ s)%Qc ∧ (s ≤ 1)%Qc) (v_cv_scores r)) as Hs.
  { apply mapM_Some_1 in Oscores. clear -Oscores.
    induction Oscores as [|test s folds scores Hs _ IH]; constructor;
      [|done].
    by eapply spec_fold_score_bounds. }
  split; [done|]. by eapply mean_bounds.
Qed.

End Proportions.

Section Folds.
Context `{Library}.

Lemma equal_lookup_true `{EqDecision A} (a : list A) (c : A) (i : nat) :
  np.equal a c !! i = Some true ↔ a !! i = Some c.
Proof.
  unfold np.equal. rewrite list_lookup_fmap.
  destruct (a !! i) as [x|]; simpl; [|done]. split.
  - intros [= Hb]. f_equal. by apply bool_decide_eq_true in Hb.
  - intros [= ->]. f_equal. by apply bool_decide_eq_true.
Qed.

(** The folds of [LeaveOneLabelOut(labels)]: one per distinct label,
    each as long as the labels; every sample is held out in exactly one
    of them, together with the samples of the same label. *)
Lemma leave_one_label_out (g : list Z) :
  length (lolo_test_masks (LeaveOneLabelOut g)) = n_distinct g ∧
  (∀ mask, mask ∈ lolo_test_masks (LeaveOneLabelOut g) →
           length mask = length g) ∧
  (∀ i u, g !! i = Some u →
     ∃ mask, mask ∈ lolo_test_masks (LeaveOneLabelOut g) ∧
             mask !! i = Some true) ∧
  (∀ j j' mask mask' i,
     lolo_test_masks (LeaveOneLabelOut g) !! j = Some mask →
     lolo_test_masks (LeaveOneLabelOut g) !! j' = Some mask' →
     mask !! i = Some true → mask' !! i = Some true → j = j') ∧
  (∀ mask i i' u,
     mask ∈ lolo_test_masks (LeaveOneLabelOut g) →
     mask !! i = Some true → g !! i = Some u →
     (mask !! i' = Some true ↔ g !! i' = Some u)).
Proof.
  unfold lolo_test_masks, LeaveOneLabelOut. simpl.
  split; [rewrite length_map; apply n_distinct_unique|].
  split.
  { intros mask (u & -> & _) %list_elem_of_fmap. apply length_map. }
  split.
  { intros i u Hi. exists (np.equal g u). split.
    - apply (list_elem_of_fmap_2 (λ u, np.equal g u)).
      apply elem_of_unique, list_elem_of_lookup. eauto.
    - by apply equal_lookup_true. }
  split.
  { intros j j' mask mask' i Hj Hj' Hi Hi'.
    apply list_lookup_fmap_Some in Hj as (u & -> & Hu).
    apply list_lookup_fmap_Some in Hj' as (u' & -> & Hu').
    apply (proj1 (equal_lookup_true _ _ _)) in Hi.
    apply (proj1 (equal_lookup_true _ _ _)) in Hi'.
    assert (u = u') as <- by congruence.
    eapply NoDup_lookup; [apply (NoDup_unique int_leb g)|done..]. }
  intros mask i i' u (u' & -> & _) %list_elem_of_fmap Hi Hg.
  apply (proj1 (equal_lookup_true _ _ _)) in Hi.
  assert (u' = u) as -> by congruence. apply equal_lookup_true.
Qed.

(** X6: line 87: the splitter that the script builds holds out two sessions
    at a time, as its comment says: it has one fold per distinct value
    of [session // 2], every retained sample is in exactly one fold,
    and two samples are in the same fold exactly when their sessions
    have the same quotient by 2. *)
Theorem splitter_leaves_two_sessions_out ds w r w' :
  script ds w = Some (r, w') →
  length (lolo_test_masks (v_cv r))
  = n_distinct (np.floor_divide (v_session r) 2) ∧
  (∀ mask, mask ∈ lolo_test_masks (v_cv r) →
           length mask = length (v_session r)) ∧
  (∀ i s, v_session r !! i = Some s →
     ∃ mask, mask ∈ lolo_test_masks (v_cv r) ∧ mask !! i = Some true) ∧
  (∀ j j' mask mask' i,
     lolo_test_masks (v_cv r) !! j = Some mask →
     lolo_test_masks (v_cv r) !! j' = Some mask' →
     mask !! i = Some true → mask' !! i = Some true → j = j') ∧
  (∀ mask i i' s s',
     mask ∈ lolo_test_masks (v_cv r) →
     v_session r !! i = Some s → v_session r !! i' = Some s' →
     mask !! i = Some true →
     (mask !! i' = Some true ↔ (s' `div` 2 = s `div` 2)%Z)).
Proof.
  intros [] %script_outcome. rewrite Ocv.
  destruct (leave_one_label_out (np.floor_divide (v_session r) 2))
    as (Hn & Hlen & Hcover & Hdisj & Hsame).
  assert (∀ i s, v_session r !! i = Some s →
            np.floor_divide (v_session r) 2 !! i = Some (s `div` 2)%Z)
    as Hg.
  { intros i s Hi. unfold np.floor_divide.
    by rewrite list_lookup_fmap, Hi. }
  split; [done|]. split.
  { intros mask Hmask. rewrite (Hlen mask Hmask).
    unfold np.floor_divide. apply length_map. }
  split; [intros i s Hi; eapply Hcover; eauto|].
  split; [done|].
  intros mask i i' s s' Hmask Hi Hi' Htrue.
  rewrite (Hsame mask i i' _ Hmask Htrue (Hg _ _ Hi)).
  rewrite (Hg _ _ Hi'). split; [by intros [= ->]|by intros ->].
Qed.

End Folds.

Section RoundTrip.
Context `{Library}.

Lemma compress_scatter (mask : list bool) (v : list Qc) :
  np.count_nonzero mask = length v →
  np.compress mask (scatter mask v) = v.
Proof.
  revert v. induction mask as [|[] mask IH]; intros v Hv; simpl in *.
  - by destruct v.
  - destruct v as [|x v]; [done|]. simpl in *. f_equal. apply IH. lia.
  - by apply IH.
Qed.

(** X7: lines 105-109: nothing of the weights is lost on the way to the
    image. Reading a volume of the weight image at the voxels of the
    mask, and then at the features that the selector kept, gives back
    the row of [svc.coef_] it was made from. *)
Theorem weights_can_be_read_back ds w r w' :
  script ds w = Some (r, w') →
  ∃ mimg msk m,
    fs w !! mask ds = Some (NiftiFile mimg) ∧
    load_mask mimg = Some (shape mimg, msk) ∧
    spec_fit 500 (v_X r) (v_y r) = Some (f_classif (v_X r) (v_y r), m) ∧
    length (vols (v_weight_img r)) = length (svm_coef m) ∧
    ∀ j vol, vols (v_weight_img r) !! j = Some vol →
      ∃ row, svm_coef m !! j = Some row ∧
        np.compress (support_of 500 (f_classif (v_X r) (v_y r)))
                    (np.compress msk vol)
        = row.
Proof.
  intros [] %script_outcome.
  destruct msk as [shp msk].
  destruct (load_mask_Some _ _ _ Omsk) as (-> & Hlen & _).
  exists mimg, msk, m. simpl in *.
  repeat (split; [done|]).
  rewrite Oweight_img. simpl.
  apply mapM_Some_1 in Ocoef, Oweight.
  split.
  { apply Forall2_length in Ocoef, Oweight. congruence. }
  intros j vol Hvol.
  destruct (Forall2_lookup_r _ _ _ _ _ Oweight Hvol) as (sel & Hsel & Hun).
  destruct (Forall2_lookup_r _ _ _ _ _ Ocoef Hsel) as (row & Hrow & Hinv).
  exists row. split; [done|].
  unfold inverse_row in Hinv. case_decide as Hc1; [|done].
  injection Hinv as <-.
  unfold unmask_row in Hun. case_decide as Hc2; [|done].
  injection Hun as <-.
  by rewrite !compress_scatter.
Qed.

End RoundTrip.

Section Sizes.
Context `{Library}.

Lemma filter_labels_length (P : string → Prop) `{∀ l, Decision (P l)}
    (t : list row) :
  length (filter P (field_labels t)) = length (filter (λ l, P (labels l)) t).
Proof.
  unfold field_labels. induction t as [|l t IH]; simpl; [done|].
  rewrite !filter_cons. destruct (decide (P (labels l))); simpl; by rewrite IH.
Qed.

Lemma run_sizes ds w r w' :
  script ds w = Some (r, w') →
  3 ≤ length (v_y r) ∧
  length (v_X r) = length (v_y r) ∧
  500 ≤ n_features (v_X r).
Proof.
  intros [] %script_outcome.
  unfold check_cv in Ofolds. case_decide as H3; [|done].
  unfold spec_fit in Ofit. case_decide as Hfit; [|done].
  naive_solver.
Qed.

(** X8: lines 65, 76 and 90: a run that succeeds had at least three retained
    samples, as many as the default scheme has folds, and at least 500
    features, as many as the selector is asked to keep. *)
Theorem successful_run_sizes ds w r w' :
  script ds w = Some (r, w') →
  3 ≤ length (v_y r) ∧
  length (v_X r) = length (v_y r) ∧
  500 ≤ n_features (v_X r).
Proof. apply run_sizes. Qed.

(** X9: lines 30-31 and 90: with fewer than three lines of label [face] or
    [house] in the table, the script fails: no score is reported and
    no image is saved. *)
Theorem too_few_samples_fail ds w target0 t :
  head (session_target ds) = Some target0 →
  fs w !! target0 = Some (TableFile t) →
  length (filter (λ l, labels l = "face"%string ∨ labels l = "house"%string) t)
  < 3 →
  script ds w = None.
Proof.
  intros Htarget Htable Hshort.
  destruct (script ds w) as [[r w']|] eqn:Hrun; [|done]. exfalso.
  destruct (run_sizes _ _ _ _ Hrun) as (H3 & _).
  destruct (script_outcome _ _ _ _ Hrun).
  rewrite Htarget in Otarget. injection Otarget as <-.
  rewrite Htable in Otable. injection Otable as ->.
  destruct (condition_filter _ _ _ Ocm Oy) as [_ Hy].
  rewrite Hy, filter_labels_length in H3. lia.
Qed.

End Sizes.

Section MergeSorted.
Context {A : Type} (le : A → A → bool).
Hypothesis le_total : ∀ x y, le x y = true ∨ le y x = true.
Hypothesis le_trans : ∀ x y z, le x y = true → le y z = true → le x z = true.

Local Abbreviation R := (λ x y : A, le x y = true).

Lemma Forall_le_trans (x y : A) (l : list A) :
  le x y = true → Forall (R y) l → Forall (R x) l.
Proof.
  intros Hxy Hl. eapply Forall_impl; [done|]. intros z. by apply le_trans.
Qed.

Lemma merge_cons (a b : A) (l1 l2 : list A) :
  merge le (a :: l1) (b :: l2)
  = if le a b then a :: merge le l1 (b :: l2) else b :: merge le (a :: l1) l2.
Proof. done. Qed.

Lemma merge_sorted (l1 l2 : list A) :
  StronglySorted R l1 → StronglySorted R l2 →
  StronglySorted R (merge le l1 l2).
Proof.
  revert l2. induction l1 as [|a l1 IH1]; intros l2 H1 H2.
  - by rewrite merge_nil_l.
  - induction l2 as [|b l2 IH2]; [done|]. rewrite merge_cons.
    apply StronglySorted_inv in H1 as [H1 Ha].
    pose proof H2 as H2'. apply StronglySorted_inv in H2' as [H2' Hb].
    destruct (le a b) eqn:Hab.
    + constructor; [by apply IH1|].
      rewrite merge_perm. apply Forall_app. split; [done|].
      constructor; [done|]. by eapply Forall_le_trans.
    + assert (le b a = true) as Hba.
      { destruct (le_total a b); congruence. }
      constructor; [apply IH2; done|].
      rewrite merge_perm. apply Forall_app. split; [|done].
      constructor; [done|]. by eapply Forall_le_trans.
Qed.

Lemma merge_pairs_sorted (runs : list (list A)) :
  (Forall (StronglySorted R) runs →
   Forall (StronglySorted R) (merge_pairs le runs)) ∧
  ∀ r, Forall (StronglySorted R) (r :: runs) →
       Forall (StronglySorted R) (merge_pairs le (r :: runs)).
Proof.
  induction runs as [|a runs [IH1 IH2]]; simpl.
  - done.
  - split; [apply IH2|].
    intros r (Hr & Ha & Hruns) %Forall_cons %(proj1 (and_iff_compat_l _ (Forall_cons _ _ _))).
    constructor; [by apply merge_sorted|by apply IH1].
Qed.

Lemma merge_fold_sorted (runs : list (list A)) :
  Forall (StronglySorted R) runs →
  StronglySorted R (foldr (merge le) [] runs).
Proof.
  induction 1 as [|r runs Hr Hruns IH]; simpl; [constructor|].
  by apply merge_sorted.
Qed.

Lemma merge_passes_sorted (n : nat) : ∀ runs : list (list A),
  Forall (StronglySorted R) runs → StronglySorted R (merge_passes le n runs).
Proof.
  induction n as [|n IH]; intros [|r [|r' runs]] Hruns; simpl;
    try constructor.
  - by apply Forall_cons in Hruns as [? _].
  - by apply (merge_fold_sorted (r :: r' :: runs)).
  - by apply Forall_cons in Hruns as [? _].
  - apply IH. by apply (proj2 (merge_pairs_sorted (r' :: runs)) r).
Qed.

Lemma merge_sort_sorted (l : list A) : StronglySorted R (merge_sort le l).
Proof.
  apply merge_passes_sorted. apply Forall_fmap, Forall_forall.
  intros x _. simpl. repeat constructor.
Qed.

End MergeSorted.

Section BestFeatures.
Context `{Library}.

Lemma score_le_total p q : score_le p q = true ∨ score_le q p = true.
Proof.
  unfold score_le. rewrite !Qle_bool_iff.
  destruct (Qlt_le_dec (this (fst p)) (this (fst q)));
    [left; by apply Qlt_le_weak | by right].
Qed.

Lemma score_le_trans p q s :
  score_le p q = true → score_le q s = true → score_le p s = true.
Proof. unfold score_le. rewrite !Qle_bool_iff. apply Qle_trans. Qed.

Lemma sorted_app_elem_of {A} (R : A → A → Prop) (l1 l2 : list A) x1 x2 :
  StronglySorted R (l1 ++ l2) → x1 ∈ l1 → x2 ∈ l2 → R x1 x2.
Proof.
  induction l1 as [|y l1 IH]; simpl; intros Hs H1 H2.
  - by apply elem_of_nil in H1.
  - apply StronglySorted_inv in Hs as [Hs Hy].
    apply elem_of_cons in H1 as [->|H1]; [|by apply IH].
    rewrite Forall_forall in Hy. apply Hy. apply elem_of_app. by right.
Qed.

Lemma elem_of_zip_seq (scores : list Qc) (s : Qc) (i : nat) :
  (s, i) ∈ zip scores (seq 0 (length scores)) → scores !! i = Some s.
Proof.
  intros (j & x & y & [= -> ->] & Hx & Hy) %elem_of_lookup_zip_with.
  apply lookup_seq in Hy as [-> _]. done.
Qed.

(** The support keeps the best: a feature that is kept has a score at
    least as high as any feature that is dropped. *)
Lemma support_keeps_the_best k scores i j si sj :
  support_of k scores !! i = Some true →
  support_of k scores !! j = Some false →
  scores !! i = Some si → scores !! j = Some sj →
  (sj ≤ si)%Qc.
Proof.
  intros Hi Hj Hsi Hsj.
  pose proof (lookup_lt_Some _ _ _ Hsi) as Hin.
  pose proof (lookup_lt_Some _ _ _ Hsj) as Hjn.
  unfold support_of in Hi, Hj.
  rewrite mask_of_indices_lookup in Hi, Hj by done.
  injection Hi as Hi. injection Hj as Hj.
  apply bool_decide_eq_true in Hi. apply bool_decide_eq_false in Hj.
  set (n := length scores) in *.
  set (sorted := merge_sort score_le (zip scores (seq 0 n))) in *.
  assert (argsort scores = snd <$> sorted) as Harg by done.
  rewrite Harg in Hi, Hj. rewrite <- fmap_drop in Hi, Hj.
  apply list_elem_of_fmap in Hi as ([si' i'] & Hi' & Hp). simpl in Hi'.
  subst i'.
  assert (j ∈ snd <$> sorted) as Hjs.
  { rewrite <- Harg, argsort_perm. apply elem_of_seq. lia. }
  rewrite <- (take_drop (n - k) sorted), fmap_app, elem_of_app in Hjs.
  destruct Hjs as [Hjs|Hjs]; [|done].
  apply list_elem_of_fmap in Hjs as ([sj' j'] & Hj' & Hq). simpl in Hj'.
  subst j'.
  assert (StronglySorted (λ p q, score_le p q = true)
            (take (n - k) sorted ++ drop (n - k) sorted)) as Hsorted.
  { rewrite take_drop.
    apply merge_sort_sorted; [apply score_le_total|apply score_le_trans]. }
  pose proof (sorted_app_elem_of _ _ _ _ _ Hsorted Hq Hp) as Hle.
  assert (∀ s idx, (s, idx) ∈ sorted → scores !! idx = Some s) as Hzip.
  { intros s idx Hs. apply elem_of_zip_seq. fold n.
    by rewrite <- (merge_sort_perm score_le). }
  apply subseteq_drop, Hzip in Hp. apply subseteq_take, Hzip in Hq.
  assert (si' = si) as -> by congruence.
  assert (sj' = sj) as -> by congruence.
  unfold score_le in Hle. simpl in Hle. by apply Qle_bool_iff in Hle.
Qed.

(** X10: line 65 in a run: the selector keeps 500 features, and each of them
    has a score at least as high as every feature it drops. *)
Theorem selector_keeps_the_best_features ds w r w' :
  script ds w = Some (r, w') →
  heap w' !! v_feature_selection r
  = Some (SelectKBest_obj 500 (Some (f_classif (v_X r) (v_y r)))) ∧
  length (support_of 500 (f_classif (v_X r) (v_y r))) = n_features (v_X r) ∧
  np.count_nonzero (support_of 500 (f_classif (v_X r) (v_y r))) = 500 ∧
  ∀ i j si sj,
    support_of 500 (f_classif (v_X r) (v_y r)) !! i = Some true →
    support_of 500 (f_classif (v_X r) (v_y r)) !! j = Some false →
    f_classif (v_X r) (v_y r) !! i = Some si →
    f_classif (v_X r) (v_y r) !! j = Some sj →
    (sj ≤ si)%Qc.
Proof.
  intros [] %script_outcome.
  destruct (spec_fit_Some _ _ _ _ _ Ofit) as (_ & Hk & _).
  split.
  { rewrite Oheap, Oheap_cv, Oheap_fit, Osel, <- app_assoc.
    by rewrite lookup_app_plus. }
  split; [by rewrite support_of_length, f_classif_length|].
  split; [by apply support_of_count|].
  intros i j si sj. apply support_keeps_the_best.
Qed.

End BestFeatures.

Section Inputs.
Context `{Library}.

(** X11: lines 20, 25, 44 and 48: without a functional image or a label file
    in the bundle, or without the label table, the mask image or the
    functional image on disk, the script fails. *)
Theorem missing_inputs_fail ds w :
  head (func ds) = None ∨
  head (session_target ds) = None ∨
  (∀ target0 t, head (session_target ds) = Some target0 →
                fs w !! target0 ≠ Some (TableFile t)) ∨
  (∀ img, fs w !! mask ds ≠ Some (NiftiFile img)) ∨
  (∀ func0 img, head (func ds) = Some func0 →
                fs w !! func0 ≠ Some (NiftiFile img)) →
  script ds w = None.
Proof.
  intros Hmissing.
  destruct (script ds w) as [[r w']|] eqn:Hrun; [|done]. exfalso.
  destruct (script_outcome _ _ _ _ Hrun).
  destruct Hmissing as [Hm|[Hm|[Hm|[Hm|Hm]]]]; try congruence.
  all: eapply Hm; eauto.
Qed.

(** X12: lines 44-51: the rows of features are computed before the
    conditions are looked at. Two runs on the same images and the same
    sessions, whatever their labels, filter the same matrix. *)
Theorem features_do_not_depend_on_labels
    ds w1 w2 r1 r2 w1' w2' func0 target0 t1 t2 :
  script ds w1 = Some (r1, w1') →
  script ds w2 = Some (r2, w2') →
  fs w1 !! mask ds = fs w2 !! mask ds →
  head (func ds) = Some func0 →
  fs w1 !! func0 = fs w2 !! func0 →
  head (session_target ds) = Some target0 →
  fs w1 !! target0 = Some (TableFile t1) →
  fs w2 !! target0 = Some (TableFile t2) →
  field_chunks t1 = field_chunks t2 →
  ∃ X0,
    v_X r1 = np.compress (v_condition_mask r1) X0 ∧
    v_X r2 = np.compress (v_condition_mask r2) X0.
Proof.
  intros [] %script_outcome [] %script_outcome
    Hmask Hf Hfunc Ht Ht1 Ht2 Hchunks.
  rewrite Ht in Otarget, Otarget0.
  injection Otarget as <-. injection Otarget0 as <-.
  rewrite Ht1 in Otable. injection Otable as Hl1.
  rewrite Ht2 in Otable0. injection Otable0 as Hl2.
  rewrite Hl1, Hl2 in Hchunks.
  rewrite Hf in Ofunc, Ofunc0.
  injection Ofunc as <-. injection Ofunc0 as <-.
  rewrite Hfunc, Oimg0 in Oimg. injection Oimg as <-.
  rewrite Hmask, Omask_file0 in Omask_file. injection Omask_file as <-.
  rewrite Omsk0 in Omsk. injection Omsk as <-.
  rewrite Osignals0 in Osignals. injection Osignals as <-.
  rewrite Hchunks, Oclean0 in Oclean. injection Oclean as <-.
  exists X1.
  apply getitem_Some in OX as [_ ->]. apply getitem_Some in OX0 as [_ ->].
  done.
Qed.

(** X13: line 77: the predictions are those of the pipeline as line 76 has
    fitted it, on the rows it was fitted on, and computing them changes
    no object. *)
Theorem predictions_use_the_fit ds w r w' :
  script ds w = Some (r, w') →
  (∃ wg, Pipeline_predict (v_anova_svc r) (v_X r) wg
         = Some (v_y_pred r, wg)) ∧
  ∃ m,
    spec_fit 500 (v_X r) (v_y r) = Some (f_classif (v_X r) (v_y r), m) ∧
    spec_predict 500 (f_classif (v_X r) (v_y r), m) (v_X r)
    = Some (v_y_pred r).
Proof.
  intros Hrun. split.
  - destruct (script_inv _ _ _ _ Hrun). eauto.
  - destruct (script_outcome _ _ _ _ Hrun). eauto.
Qed.

End Inputs.

Section Copies.
Context `{Library}.

Lemma Pipeline_predict_fitted p n1 anova n2 svc k scores kernel m X yp w :
  heap w !! p = Some (Pipeline_obj ((n1, anova), (n2, svc))) →
  heap w !! anova = Some (SelectKBest_obj k (Some scores)) →
  heap w !! svc = Some (SVC_obj kernel (Some m)) →
  spec_predict k (scores, m) X = Some yp →
  Pipeline_predict p X w = Some (yp, w).
Proof.
  intros Hp Ha Hs Hy. unfold spec_predict, spec_transform in Hy.
  simpl in Hy.
  destruct (mapM _ X) as [Xt|] eqn:HXt; [|done]. simpl in Hy.
  injection Hy as <-.
  unfold Pipeline_predict, SelectKBest_transform, get_support, SVC_predict,
    mbind, M_bind, load.
  rewrite Hp. simpl. rewrite Ha. simpl. unfold lift. rewrite HXt.
  by rewrite Hs.
Qed.

(** X14: lines 77 and 90: the validation works on copies. At the end of a
    run the pipeline of the caller is still as line 76 has fitted it:
    predicting with it on the same rows gives the predictions of
    line 77 again, and changes nothing. *)
Theorem validation_works_on_copies ds w r w' :
  script ds w = Some (r, w') →
  Pipeline_predict (v_anova_svc r) (v_X r) w' = Some (v_y_pred r, w').
Proof.
  intros [] %script_outcome.
  assert (heap w' = heap w ++ fitted_objects ds r msk m ++ hs) as Hheap.
  { by rewrite Oheap, Oheap_cv, Oheap_fit, <- app_assoc. }
  assert (∀ i o, fitted_objects ds r msk m !! i = Some o →
                 heap w' !! (length (heap w) + i) = Some o) as Hat.
  { intros i o Hi. rewrite Hheap, lookup_app_r by lia.
    replace (length (heap w) + i - length (heap w)) with i by lia.
    by apply lookup_app_l_Some. }
  eapply Pipeline_predict_fitted; [| | |exact Opred].
  - rewrite Opipe. by apply Hat.
  - rewrite Osel. by apply Hat.
  - rewrite Osvc. by apply Hat.
Qed.

End Copies.

(** ** The further properties on the small datasets *)


Lemma at_most_two_conditions_witness :
  ∃ r w', Toy.run = Some (r, w') ∧
    (v_n_conditions r = 1 ∨ v_n_conditions r = 2) ∧
    (v_chance_level r = 1%Qc ∨ v_chance_level r = Q2Qc (1 # 2)).
Proof.
  destruct (run_of_check Toy.run) as [[r w'] Hrun];
    [vm_compute; reflexivity|].
  exists r, w'. split; [exact Hrun|].
  exact (at_most_two_conditions _ _ _ _ Hrun).
Defined.

Lemma script_output_witness :
  ∃ r w', Toy.run = Some (r, w') ∧
    ∃ func_filename,
      head (func Toy.haxby_dataset) = Some func_filename ∧
      out w' = out Toy.world0 ++
        [Printed "Mask nifti image (3D) is located at: %s"
           [AStr (mask Toy.haxby_dataset)];
         Printed "Functional nifti image (4D) is located at: %s"
           [AStr func_filename];
         Printed "Classification accuracy: %.4f / Chance level: %f"
           [ANum (v_classification_accuracy r); ANum (v_chance_level r)];
         PlotStatMap (v_weight_img r) (v_mean_img r) "SVM weights";
         Show] ∧
      fs w' !! "haxby_face_vs_house.nii"%string
      = Some (NiftiFile (v_weight_img r)).
Proof.
  destruct (run_of_check Toy.run) as [[r w'] Hrun];
    [vm_compute; reflexivity|].
  exists r, w'. split; [exact Hrun|].
  exact (script_output _ _ _ _ Hrun).
Defined.

Lemma script_objects_witness :
  ∃ r w', Toy.run = Some (r, w') ∧
    ∃ msk m hs,
      heap w' = heap Toy.world0 ++
        [NiftiMasker_obj (mask Toy.haxby_dataset) (field_chunks (v_labels r))
           4 true (Some msk);
         SVC_obj "linear" (Some m);
         SelectKBest_obj 500 (Some (f_classif (v_X r) (v_y r)));
         Pipeline_obj (("anova"%string, v_feature_selection r),
                       ("svc"%string, v_svc r))] ++ hs ∧
      v_masker r = length (heap Toy.world0) ∧
      v_svc r = length (heap Toy.world0) + 1 ∧
      v_feature_selection r = length (heap Toy.world0) + 2 ∧
      v_anova_svc r = length (heap Toy.world0) + 3 ∧
      (∀ l o, heap Toy.world0 !! l = Some o → heap w' !! l = Some o).
Proof.
  destruct (run_of_check Toy.run) as [[r w'] Hrun];
    [vm_compute; reflexivity|].
  exists r, w'. split; [exact Hrun|].
  exact (script_objects _ _ _ _ Hrun).
Defined.

Lemma accuracy_is_a_proportion_witness :
  ∃ r w', Toy.run = Some (r, w') ∧
    length (v_cv_scores r) = 3 ∧
    Forall (λ s, (0 ≤ s)%Qc ∧ (s ≤ 1)%Qc) (v_cv_scores r) ∧
    (0 ≤ v_classification_accuracy r)%Qc ∧
    (v_classification_accuracy r ≤ 1)%Qc.
Proof.
  destruct (run_of_check Toy.run) as [[r w'] Hrun];
    [vm_compute; reflexivity|].
  exists r, w'. split; [exact Hrun|].
  exact (accuracy_is_a_proportion _ _ _ _ Hrun).
Defined.

Lemma splitter_leaves_two_sessions_out_witness :
  ∃ r w', Toy.run = Some (r, w') ∧
    length (lolo_test_masks (v_cv r))
    = n_distinct (np.floor_divide (v_session r) 2) ∧
    (∀ mask, mask ∈ lolo_test_masks (v_cv r) →
             length mask = length (v_session r)) ∧
    (∀ i s, v_session r !! i = Some s →
       ∃ mask, mask ∈ lolo_test_masks (v_cv r) ∧ mask !! i = Some true) ∧
    (∀ j j' mask mask' i,
       lolo_test_masks (v_cv r) !! j = Some mask →
       lolo_test_masks (v_cv r) !! j' = Some mask' →
       mask !! i = Some true → mask' !! i = Some true → j = j') ∧
    (∀ mask i i' s s',
       mask ∈ lolo_test_masks (v_cv r) →
       v_session r !! i = Some s → v_session r !! i' = Some s' →
       mask !! i = Some true →
       (mask !! i' = Some true ↔ (s' `div` 2 = s `div` 2)%Z)).
Proof.
  destruct (run_of_check Toy.run) as [[r w'] Hrun];
    [vm_compute; reflexivity|].
  exists r, w'. split; [exact Hrun|].
  exact (splitter_leaves_two_sessions_out _ _ _ _ Hrun).
Defined.

Lemma weights_can_be_read_back_witness :
  ∃ r w', Toy.run = Some (r, w') ∧
    ∃ mimg msk m,
      fs Toy.world0 !! mask Toy.haxby_dataset = Some (NiftiFile mimg) ∧
      load_mask mimg = Some (shape mimg, msk) ∧
      spec_fit 500 (v_X r) (v_y r) = Some (f_classif (v_X r) (v_y r), m) ∧
      length (vols (v_weight_img r)) = length (svm_coef m) ∧
      ∀ j vol, vols (v_weight_img r) !! j = Some vol →
        ∃ row, svm_coef m !! j = Some row ∧
          np.compress (support_of 500 (f_classif (v_X r) (v_y r)))
                      (np.compress msk vol)
          = row.
Proof.
  destruct (run_of_check Toy.run) as [[r w'] Hrun];
    [vm_compute; reflexivity|].
  exists r, w'. split; [exact Hrun|].
  exact (weights_can_be_read_back _ _ _ _ Hrun).
Defined.

Lemma successful_run_sizes_witness :
  ∃ r w', Toy.run = Some (r, w') ∧
    3 ≤ length (v_y r) ∧
    length (v_X r) = length (v_y r) ∧
    500 ≤ n_features (v_X r).
Proof.
  destruct (run_of_check Toy.run) as [[r w'] Hrun];
    [vm_compute; reflexivity|].
  exists r, w'. split; [exact Hrun|].
  exact (successful_run_sizes _ _ _ _ Hrun).
Defined.

Lemma too_few_samples_fail_witness :
  length (filter (λ l, labels l = "face"%string ∨ labels l = "house"%string)
                 Short.table) < 3 ∧
  script Toy.haxby_dataset Short.world0 = None.
Proof.
  split; [vm_compute; lia|].
  apply (too_few_samples_fail _ _ Toy.target_path Short.table).
  - reflexivity.
  - vm_compute. reflexivity.
  - vm_compute. lia.
Defined.

Lemma selector_keeps_the_best_features_witness :
  ∃ r w', Toy.run = Some (r, w') ∧
    heap w' !! v_feature_selection r
    = Some (SelectKBest_obj 500 (Some (f_classif (v_X r) (v_y r)))) ∧
    length (support_of 500 (f_classif (v_X r) (v_y r)))
    = n_features (v_X r) ∧
    np.count_nonzero (support_of 500 (f_classif (v_X r) (v_y r))) = 500 ∧
    ∀ i j si sj,
      support_of 500 (f_classif (v_X r) (v_y r)) !! i = Some true →
      support_of 500 (f_classif (v_X r) (v_y r)) !! j = Some false →
      f_classif (v_X r) (v_y r) !! i = Some si →
      f_classif (v_X r) (v_y r) !! j = Some sj →
      (sj ≤ si)%Qc.
Proof.
  destruct (run_of_check Toy.run) as [[r w'] Hrun];
    [vm_compute; reflexivity|].
  exists r, w'. split; [exact Hrun|].
  exact (selector_keeps_the_best_features _ _ _ _ Hrun).
Defined.

Lemma missing_inputs_fail_witness :
  script {| mask := Toy.mask_path; func := [];
            session_target := [Toy.target_path] |} Short.world0 = None.
Proof. apply missing_inputs_fail. left. reflexivity. Defined.

Lemma features_do_not_depend_on_labels_witness :
  ∃ r1 w1' r2 w2',
    Toy.run = Some (r1, w1') ∧ Relabelled.run = Some (r2, w2') ∧
    field_chunks Toy.table = field_chunks Relabelled.table ∧
    ∃ X0,
      v_X r1 = np.compress (v_condition_mask r1) X0 ∧
      v_X r2 = np.compress (v_condition_mask r2) X0.
Proof.
  destruct (run_of_check Toy.run) as [[r1 w1'] Hrun1];
    [vm_compute; reflexivity|].
  destruct (run_of_check Relabelled.run) as [[r2 w2'] Hrun2];
    [vm_compute; reflexivity|].
  exists r1, w1', r2, w2'.
  split; [exact Hrun1|]. split; [exact Hrun2|]. split; [reflexivity|].
  apply (features_do_not_depend_on_labels _ _ _ _ _ _ _
           Toy.func_path Toy.target_path Toy.table Relabelled.table
           Hrun1 Hrun2).
  - vm_compute. reflexivity.
  - reflexivity.
  - vm_compute. reflexivity.
  - reflexivity.
  - vm_compute. reflexivity.
  - vm_compute. reflexivity.
  - reflexivity.
Defined.

Lemma predictions_use_the_fit_witness :
  ∃ r w', Toy.run = Some (r, w') ∧
    (∃ wg, Pipeline_predict (v_anova_svc r) (v_X r) wg
           = Some (v_y_pred r, wg)) ∧
    ∃ m,
      spec_fit 500 (v_X r) (v_y r) = Some (f_classif (v_X r) (v_y r), m) ∧
      spec_predict 500 (f_classif (v_X r) (v_y r), m) (v_X r)
      = Some (v_y_pred r).
Proof.
  destruct (run_of_check Toy.run) as [[r w'] Hrun];
    [vm_compute; reflexivity|].
  exists r, w'. split; [exact Hrun|].
  exact (predictions_use_the_fit _ _ _ _ Hrun).
Defined.

Lemma validation_works_on_copies_witness :
  ∃ r w', Toy.run = Some (r, w') ∧
    Pipeline_predict (v_anova_svc r) (v_X r) w' = Some (v_y_pred r, w').
Proof.
  destruct (run_of_check Toy.run) as [[r w'] Hrun];
    [vm_compute; reflexivity|].
  exists r, w'. split; [exact Hrun|].
  exact (validation_works_on_copies _ _ _ _ Hrun).
Defined.
